(** * URL shortener: a shallow embedding of [src/app.py], [src/utils.py]
    and [src/database.py], and the properties of its short-code registry,
    redirect and statistics handlers.

    Conventions of the embedding.
    - A Python [str] is a [string]; each [ascii] stands for one code point
      in U+0000..U+00FF.  On that range the Unicode classes used by the
      regular expressions of the program ([\d], [\S], case folding of
      ASCII letters) are exactly the ones defined below.
    - A [datetime] is the number of microseconds since 0001-01-01T00:00:00
      as a [Z]; the TEXT columns that hold [isoformat()] strings hold that
      number, [datetime.fromisoformat] being the inverse of [isoformat].
    - The wall clock, the generator [shortuuid.uuid()] and faults of the
      storage layer are inputs of each request (record [App.ambient]); a
      fault is what makes an INSERT raise, the SELECTs are taken to
      succeed.
    - A request reaches a view with its route matched and, for
      [POST /shorturls], its body decoded to a JSON object.
    - The calls of the loggers write to no table and decide no branch;
      they are left out. *)

From Stdlib Require Import ZArith List String Ascii Bool Arith Lia.
Import ListNotations.

Local Open Scope list_scope.
Local Open Scope string_scope.

(* ================================================================== *)
(** * Characters and strings *)
(* ================================================================== *)

Module Text.

Definition code (c : ascii) : nat := nat_of_ascii c.

Definition between (lo hi c : ascii) : bool :=
  (code lo <=? code c)%nat && (code c <=? code hi)%nat.

Definition is_digit (c : ascii) : bool := between "0" "9" c.

Definition is_alpha (c : ascii) : bool := between "a" "z" c || between "A" "Z" c.

(** [str.isspace] / the class [\s] on U+0000..U+00FF. *)
Definition is_space (c : ascii) : bool :=
  existsb (Nat.eqb (code c)) [9; 10; 11; 12; 13; 28; 29; 30; 31; 32; 133; 160]%nat.

Definition to_lower (c : ascii) : ascii :=
  if between "A" "Z" c then ascii_of_nat (code c + 32) else c.

Definition to_upper (c : ascii) : ascii :=
  if between "a" "z" c then ascii_of_nat (code c - 32) else c.

Definition newline : ascii := ascii_of_nat 10.

Definition carriage_return : ascii := ascii_of_nat 13.

Definition is_line_break (c : ascii) : bool :=
  Ascii.eqb c newline || Ascii.eqb c carriage_return.

Definition all_chars (p : ascii -> bool) (s : string) : bool :=
  forallb p (list_ascii_of_string s).

Fixpoint lower (s : string) : string :=
  match s with
  | EmptyString => EmptyString
  | String c s' => String (to_lower c) (lower s')
  end.

Definition has_char (p : ascii -> bool) (s : string) : bool :=
  existsb p (list_ascii_of_string s).

Fixpoint take (n : nat) (s : string) : string :=
  match n, s with
  | S k, String c s' => String c (take k s')
  | _, _ => EmptyString
  end.

Fixpoint drop (n : nat) (s : string) : string :=
  match n, s with
  | S k, String c s' => drop k s'
  | _, _ => s
  end.

(** All the characters, and those that are not capital letters. *)

Definition all_ascii : list ascii := map ascii_of_nat (seq 0 256).

Definition not_upper (c : ascii) : bool := negb (between "A" "Z" c).

Definition is_comma (c : ascii) : bool := Ascii.eqb c ",".

End Text.

(* ================================================================== *)
(** * Regular expressions: the fragment of Python's [re] the program uses *)
(* ================================================================== *)

Module Re.
Import Text.

(** ** Patterns as they are written in the source *)

Inductive set_item : Type :=
| Range (lo hi : ascii)     (* [lo-hi] *)
| Single (c : ascii).       (* one listed character *)

Inductive pattern : Type :=
| PLit (s : string)                          (* literal text *)
| PSet (items : list set_item)               (* [...] *)
| PDigit                                     (* \d *)
| PNonSpace                                  (* \S *)
| PCat (p q : pattern)
| PAlt (p q : pattern)                       (* p|q *)
| PRep (p : pattern) (lo : nat) (hi : option nat).  (* p{lo,hi}; hi absent: unbounded *)

Definition POpt (p : pattern) : pattern := PRep p 0 (Some 1).   (* p? *)
Definition PPlus (p : pattern) : pattern := PRep p 1 None.      (* p+ *)
Definition PSeq (ps : list pattern) : pattern := fold_right PCat (PLit "") ps.

(** ** Core expressions over character predicates *)

Inductive regex : Type :=
| Void
| Eps
| Chr (p : ascii -> bool)
| Cat (r s : regex)
| Alt (r s : regex)
| Star (r : regex).

Definition item_has (i : set_item) (c : ascii) : bool :=
  match i with
  | Range lo hi => between lo hi c
  | Single x => Ascii.eqb x c
  end.

Definition set_has (items : list set_item) (c : ascii) : bool :=
  existsb (fun i => item_has i c) items.

(** [re.IGNORECASE]: a character matches when either of its cases does. *)
Definition fold_case (ignorecase : bool) (p : ascii -> bool) : ascii -> bool :=
  fun c => if ignorecase then p (to_lower c) || p (to_upper c) else p c.

Fixpoint lit_regex (ignorecase : bool) (s : string) : regex :=
  match s with
  | EmptyString => Eps
  | String x s' => Cat (Chr (fold_case ignorecase (Ascii.eqb x))) (lit_regex ignorecase s')
  end.

Fixpoint rep_upto (n : nat) (r : regex) : regex :=
  match n with
  | O => Eps
  | S k => Alt (Cat r (rep_upto k r)) Eps
  end.

Fixpoint rep_from (m : nat) (r tail : regex) : regex :=
  match m with
  | O => tail
  | S k => Cat r (rep_from k r tail)
  end.

Definition repeat_regex (r : regex) (lo : nat) (hi : option nat) : regex :=
  rep_from lo r (match hi with
                 | None => Star r
                 | Some h => rep_upto (h - lo) r
                 end).

Fixpoint compile (ignorecase : bool) (p : pattern) : regex :=
  match p with
  | PLit s => lit_regex ignorecase s
  | PSet items => Chr (fold_case ignorecase (set_has items))
  | PDigit => Chr is_digit
  | PNonSpace => Chr (fun c => negb (is_space c))
  | PCat p q => Cat (compile ignorecase p) (compile ignorecase q)
  | PAlt p q => Alt (compile ignorecase p) (compile ignorecase q)
  | PRep p lo hi => repeat_regex (compile ignorecase p) lo hi
  end.

(** ** Matching by derivatives *)

Fixpoint nullable (r : regex) : bool :=
  match r with
  | Void => false
  | Eps => true
  | Chr _ => false
  | Cat r s => nullable r && nullable s
  | Alt r s => nullable r || nullable s
  | Star _ => true
  end.

Definition cat (r s : regex) : regex :=
  match r, s with
  | Void, _ => Void
  | _, Void => Void
  | Eps, _ => s
  | _, _ => Cat r s
  end.

Definition alt (r s : regex) : regex :=
  match r, s with
  | Void, _ => s
  | _, Void => r
  | _, _ => Alt r s
  end.

Fixpoint deriv (c : ascii) (r : regex) : regex :=
  match r with
  | Void => Void
  | Eps => Void
  | Chr p => if p c then Eps else Void
  | Cat r s =>
      if nullable r then alt (cat (deriv c r) s) (deriv c s)
      else cat (deriv c r) s
  | Alt r s => alt (deriv c r) (deriv c s)
  | Star r => cat (deriv c r) (Star r)
  end.

(** The whole of [s] is a word of [r]. *)
Fixpoint matches (r : regex) (s : string) : bool :=
  match s with
  | EmptyString => nullable r
  | String c s' => matches (deriv c r) s'
  end.

(** [re.match('^' r '$', s) is not None], without [re.MULTILINE]: [r] has
    to match from the start, and [$] holds at the end of the string and
    also just before a newline that is the last character. *)
Fixpoint match_dollar (r : regex) (s : string) : bool :=
  match s with
  | EmptyString => nullable r
  | String c s' =>
      (nullable r && Ascii.eqb c newline && String.eqb s' "")
      || match_dollar (deriv c r) s'
  end.

Definition re_match_anchored (ignorecase : bool) (p : pattern) (s : string) : bool :=
  match_dollar (compile ignorecase p) s.

(** ** The language of an expression *)

Inductive lang : regex -> string -> Prop :=
| lang_eps : lang Eps ""
| lang_chr p c : p c = true -> lang (Chr p) (String c "")
| lang_cat r s u v : lang r u -> lang s v -> lang (Cat r s) (u ++ v)
| lang_alt_l r s u : lang r u -> lang (Alt r s) u
| lang_alt_r r s u : lang s u -> lang (Alt r s) u
| lang_star_nil r : lang (Star r) ""
| lang_star_app r u v : lang r u -> lang (Star r) v -> lang (Star r) (u ++ v).

(** Every character class of [r] lies within [p]. *)
Fixpoint regex_within (p : ascii -> bool) (r : regex) : bool :=
  match r with
  | Void | Eps => true
  | Chr q => forallb (fun c => negb (q c) || p c) all_ascii
  | Cat r1 r2 | Alt r1 r2 => regex_within p r1 && regex_within p r2
  | Star r1 => regex_within p r1
  end.

(** The concatenation of a list of words. *)
Fixpoint flat (ws : list string) : string :=
  match ws with
  | [] => ""
  | w :: ws' => w ++ flat ws'
  end.

End Re.

(* ================================================================== *)
(** * Python values, exceptions and the module namespace of [app.py] *)
(* ================================================================== *)

Module Py.

(** A value decoded from the JSON body.  [VNone] is JSON [null] and also
    what [dict.get] returns for a missing key; [VOther] stands for floats,
    lists and objects, of which only the truth value is observed. *)
Inductive value : Type :=
| VNone
| VBool (b : bool)
| VInt (z : Z)
| VStr (s : string)
| VOther (truth : bool).

Definition truthy (v : value) : bool :=
  match v with
  | VNone => false
  | VBool b => b
  | VInt z => negb (z =? 0)%Z
  | VStr s => negb (s =? "")
  | VOther t => t
  end.

Inductive sqlite3_error : Type :=
| IntegrityError       (* a constraint of the schema is violated *)
| OperationalError.    (* a fault of the storage layer *)

Inductive exn : Type :=
| NameError (name : string)
| TypeError
| ValueError
| OverflowError
| Sqlite3 (e : sqlite3_error).

Inductive result (A : Type) : Type :=
| Ok (a : A)
| Raise (e : exn).
Arguments Ok {A} a.
Arguments Raise {A} e.

Definition bind {A B : Type} (m : result A) (k : A -> result B) : result B :=
  match m with
  | Ok a => k a
  | Raise e => Raise e
  end.

(** Names bound by the import statements of [app.py] (lines 2-14). *)
Definition app_imports : list string :=
  [ "os"; "logging"; "re"; "datetime";
    "Flask"; "request"; "jsonify"; "redirect"; "g";
    "load_dotenv";
    "init_db"; "get_db_connection";
    "generate_short_code"; "is_valid_url"; "calculate_expiry";
    "get_client_ip"; "get_geolocation" ].

(** Names bound by the assignments and definitions of [app.py]. *)
Definition app_definitions : list string :=
  [ "app"; "log_formatter"; "file_handler"; "console_handler";
    "before_request"; "teardown_request";
    "create_short_url"; "get_short_url_stats"; "redirect_short_url";
    "not_found_error"; "internal_error" ].

Definition app_globals : list string := (app_imports ++ app_definitions)%list.

Definition name_bound (name : string) : bool :=
  existsb (String.eqb name) app_globals.

Definition is_sqlite3_error (e : exn) : bool :=
  match e with
  | Sqlite3 _ => true
  | _ => false
  end.

(** [try: body  except sqlite3.Error as e: handler] inside [app.py].  The
    expression [sqlite3.Error] of the clause is evaluated when, and only
    when, [body] raises; a name that is not bound raises [NameError] at
    that point, in place of the exception being handled. *)
Definition try_except_sqlite3_Error {A : Type} (body : result A) (handler : result A)
  : result A :=
  match body with
  | Ok a => Ok a
  | Raise e =>
      if name_bound "sqlite3" then
        if is_sqlite3_error e then handler else Raise e
      else Raise (NameError "sqlite3")
  end.

End Py.

(* ================================================================== *)
(** * [src/utils.py] *)
(* ================================================================== *)

Module Utils.
Import Text Re Py.

(** [shortuuid.uuid()[:length]], given the result of [shortuuid.uuid()]. *)
Definition generate_short_code (uuid : string) : string := substring 0 7 uuid.

Definition alnum : list set_item := [Range "A" "Z"; Range "0" "9"].
Definition alnum_hyphen : list set_item := [Range "A" "Z"; Range "0" "9"; Single "-"].

(** [(?:http|ftp)s?://] *)
Definition url_scheme : pattern :=
  PSeq [PAlt (PLit "http") (PLit "ftp"); POpt (PLit "s"); PLit "://"].

(** [(?:[A-Z0-9](?:[A-Z0-9-]{0,61}[A-Z0-9])?\.)] *)
Definition url_label : pattern :=
  PSeq [PSet alnum;
        POpt (PCat (PRep (PSet alnum_hyphen) 0 (Some 61)) (PSet alnum));
        PLit "."].

(** [(?:[A-Z]{2,6}\.?|[A-Z0-9-]{2,}\.?)] *)
Definition url_tld : pattern :=
  PAlt (PCat (PRep (PSet [Range "A" "Z"]) 2 (Some 6)) (POpt (PLit ".")))
       (PCat (PRep (PSet alnum_hyphen) 2 None) (POpt (PLit "."))).

Definition url_domain : pattern := PCat (PPlus url_label) url_tld.

(** [\d{1,3}\.\d{1,3}\.\d{1,3}\.\d{1,3}] *)
Definition url_ip : pattern :=
  PSeq [PRep PDigit 1 (Some 3); PLit "."; PRep PDigit 1 (Some 3); PLit ".";
        PRep PDigit 1 (Some 3); PLit "."; PRep PDigit 1 (Some 3)].

Definition url_host : pattern := PAlt url_domain (PAlt (PLit "localhost") url_ip).

(** [(?::\d+)?] *)
Definition url_port : pattern := POpt (PCat (PLit ":") (PPlus PDigit)).

(** [(?:/?|[/?]\S+)] *)
Definition url_tail : pattern :=
  PAlt (POpt (PLit "/")) (PCat (PSet [Single "/"; Single "?"]) (PPlus PNonSpace)).

Definition url_pattern : pattern := PSeq [url_scheme; url_host; url_port; url_tail].

(** [re.match(regex, url) is not None], the regex being compiled with
    [re.IGNORECASE] between [^] and [$]. *)
Definition is_valid_url (url : string) : bool :=
  re_match_anchored true url_pattern url.

Definition datetime_max : Z := 3652059 * 86400000000 - 1.   (* 9999-12-31T23:59:59.999999 *)

(** [timedelta(minutes=m)], in microseconds; the day count is bounded. *)
Definition timedelta_minutes (m : Z) : result Z :=
  let us := (m * 60000000)%Z in
  if (Z.abs (us / 86400000000) <=? 999999999)%Z then Ok us else Raise OverflowError.

(** [datetime + timedelta]. *)
Definition datetime_add (t d : Z) : result Z :=
  let r := (t + d)%Z in
  if ((0 <=? r) && (r <=? datetime_max))%Z then Ok r else Raise OverflowError.

(** [calculate_expiry(minutes)], [now] being what [datetime.utcnow()] returns. *)
Definition calculate_expiry (now : Z) (minutes : Z) : result Z :=
  bind (timedelta_minutes minutes) (fun d => datetime_add now d).

(** The part of the Flask request the handlers read. *)
Record http_request : Type := {
  x_forwarded_for : option string;   (* the header, when present *)
  remote_addr : option string;
  http_referrer : option string
}.

Fixpoint before_comma (s : string) : string :=
  match s with
  | EmptyString => EmptyString
  | String c s' => if Ascii.eqb c "," then EmptyString else String c (before_comma s')
  end.

Fixpoint lstrip (s : string) : string :=
  match s with
  | EmptyString => EmptyString
  | String c s' => if is_space c then lstrip s' else s
  end.

Fixpoint rstrip (s : string) : string :=
  match s with
  | EmptyString => EmptyString
  | String c s' =>
      match rstrip s' with
      | EmptyString => if is_space c then EmptyString else String c EmptyString
      | t => String c t
      end
  end.

Definition strip (s : string) : string := rstrip (lstrip s).

Definition get_client_ip (request : http_request) : option string :=
  match x_forwarded_for request with
  | Some h => Some (strip (before_comma h))
  | None => remote_addr request
  end.

Record geolocation : Type := { country : string; region : string; city : string }.

Definition get_geolocation (ip_address : option string) : geolocation :=
  match ip_address with
  | None | Some EmptyString =>
      {| country := "Unknown"; region := "Unknown"; city := "Unknown" |}
  | Some _ =>
      {| country := "India"; region := "Andhra Pradesh"; city := "Kadapa" |}
  end.

End Utils.

(* ================================================================== *)
(** * [src/database.py]: the two tables *)
(* ================================================================== *)

Module Database.
Import Py.

Local Open Scope Z_scope.

(** A row of [urls]. *)
Record url_row : Type := {
  id : Z;                    (* INTEGER PRIMARY KEY AUTOINCREMENT *)
  original_url : string;     (* TEXT NOT NULL *)
  short_code : string;       (* TEXT NOT NULL UNIQUE *)
  created_at : Z;            (* TEXT NOT NULL *)
  expires_at : Z             (* TEXT NOT NULL *)
}.

(** A row of [clicks]. *)
Record click_row : Type := {
  click_id : Z;              (* INTEGER PRIMARY KEY AUTOINCREMENT *)
  url_id : Z;                (* INTEGER NOT NULL, REFERENCES urls (id) *)
  timestamp : Z;             (* TEXT NOT NULL *)
  referrer : string;
  ip_address : option string;
  country : string;
  region : string;
  city : string
}.

(** Rows are kept in rowid order, which is the order of insertion; the
    [_seq] fields are the AUTOINCREMENT counters of [sqlite_sequence]. *)
Record database : Type := {
  urls : list url_row;
  urls_seq : Z;
  clicks : list click_row;
  clicks_seq : Z
}.

Definition empty_database : database :=
  {| urls := []; urls_seq := 0; clicks := []; clicks_seq := 0 |}.

(** [init_db()]: both statements are [CREATE TABLE IF NOT EXISTS]. *)
Definition init_db (file : option database) : database :=
  match file with
  | None => empty_database
  | Some db => db
  end.

(** [SELECT ... FROM urls WHERE short_code = ?] followed by [fetchone()]. *)
Definition select_url (db : database) (code : string) : option url_row :=
  find (fun r => String.eqb (short_code r) code) (urls db).

(** [SELECT ... FROM clicks WHERE url_id = ?] followed by [fetchall()]. *)
Definition select_clicks (db : database) (uid : Z) : list click_row :=
  filter (fun c => url_id c =? uid) (clicks db).

(** [INSERT INTO urls (original_url, short_code, created_at, expires_at)]
    and [commit()].  [fault] says that the storage layer fails. *)
Definition insert_url (fault : bool) (db : database)
    (url code : string) (created expires : Z) : result database :=
  if fault then Raise (Sqlite3 OperationalError)
  else if existsb (fun r => String.eqb (short_code r) code) (urls db)
  then Raise (Sqlite3 IntegrityError)
  else
    let rowid := urls_seq db + 1 in
    Ok {| urls := (urls db ++ [ {| id := rowid; original_url := url; short_code := code;
                                  created_at := created; expires_at := expires |} ])%list;
          urls_seq := rowid;
          clicks := clicks db;
          clicks_seq := clicks_seq db |}.

(** [INSERT INTO clicks (url_id, timestamp, referrer, ip_address, country,
    region, city)] and [commit()]. *)
Definition insert_click (fault : bool) (db : database)
    (uid ts : Z) (ref : string) (ip : option string) (geo : Utils.geolocation)
  : result database :=
  if fault then Raise (Sqlite3 OperationalError)
  else
    let rowid := clicks_seq db + 1 in
    Ok {| urls := urls db;
          urls_seq := urls_seq db;
          clicks := (clicks db ++ [ {| click_id := rowid; url_id := uid; timestamp := ts;
                                      referrer := ref; ip_address := ip;
                                      country := Utils.country geo;
                                      region := Utils.region geo;
                                      city := Utils.city geo |} ])%list;
          clicks_seq := rowid |}.

End Database.

(* ================================================================== *)
(** * [src/app.py]: the three endpoints *)
(* ================================================================== *)

Module App.
Import Text Re Py Utils Database.

Local Open Scope Z_scope.

(** What a request takes from outside the program. *)
Record ambient : Type := {
  utcnow : nat -> Z;          (* the successive results of [datetime.utcnow()] *)
  uuid : nat -> string;       (* the successive results of [shortuuid.uuid()] *)
  storage_fault : bool;       (* the INSERT of this request raises [sqlite3.Error] *)
  base_url : option string    (* [os.getenv('BASE_URL')] *)
}.

(** The JSON object in the body of [POST /shorturls]: [data.get(key)] for
    the three keys the handler reads. *)
Record body : Type := {
  url : value;
  validity : value;
  shortcode : value
}.

Record click_detail : Type := {
  d_timestamp : Z;                 (* the stored text followed by "Z" *)
  d_referrer : string;
  d_ipAddress : option string;
  d_location : geolocation
}.

Record stats_view : Type := {
  originalUrl : string;
  creationDate : Z;                (* the stored text followed by "Z" *)
  expiryDate : Z;                  (* the stored text followed by "Z" *)
  totalClicks : nat;
  clickDetails : list click_detail
}.

Inductive response : Type :=
| Created (shortLink : string) (expiry : Z)       (* 201 *)
| Stats (view : stats_view)                       (* 200 *)
| Redirect (location : string)                    (* 302 *)
| Error (status : nat) (message : string).

Definition status (r : response) : nat :=
  match r with
  | Created _ _ => 201
  | Stats _ => 200
  | Redirect _ => 302
  | Error st _ => st
  end%nat.

(** [re.match(r'^[a-zA-Z0-9_-]{4,20}$', custom_shortcode)] *)
Definition shortcode_pattern : pattern :=
  PRep (PSet [Range "a" "z"; Range "A" "Z"; Range "0" "9"; Single "_"; Single "-"])
       4 (Some 20%nat).

Definition shortcode_format_ok (code : string) : bool :=
  re_match_anchored false shortcode_pattern code.

(** [validity_minutes if isinstance(validity_minutes, int) and
    validity_minutes > 0 else 30]; [bool] is a subclass of [int], and
    [True] counts as 1 in [timedelta]. *)
Definition expiry_minutes (validity_minutes : value) : Z :=
  match validity_minutes with
  | VInt z => if 0 <? z then z else 30
  | VBool true => 1
  | _ => 30
  end.

(** The [while True] loop of step 4; [k] counts the calls of the generator
    made so far, [fuel] bounds the number of iterations that are run. *)
Fixpoint generate_loop (fuel : nat) (amb : ambient) (db : database) (k : nat)
  : option string :=
  match fuel with
  | O => None
  | S fuel' =>
      let generated_code := generate_short_code (uuid amb k) in
      match select_url db generated_code with
      | None => Some generated_code
      | Some _ => generate_loop fuel' amb db (S k)
      end
  end.

(** f"{os.getenv('BASE_URL')}/{final_shortcode}" *)
Definition short_link (amb : ambient) (final_shortcode : string) : string :=
  match base_url amb with
  | Some b => b
  | None => "None"
  end ++ "/" ++ final_shortcode.

(** How a view ends, by the response it returns or by the exception that
    leaves it, and the store as it was last committed. *)
Definition outcome : Type := (result response * database)%type.

(** Step 5 of [create_short_url]. *)
Definition store_url (amb : ambient) (db : database)
    (original_url final_shortcode : string) (expires_at : Z)
  : outcome :=
  match
    try_except_sqlite3_Error
      (let created_at := utcnow amb 1 in
       bind (insert_url (storage_fault amb) db original_url final_shortcode
                        created_at expires_at)
            (fun db' => Ok (Created (short_link amb final_shortcode) expires_at, db')))
      (Ok (Error 500 "Internal server error occurred while creating short URL", db))
  with
  | Ok (resp, db') => (Ok resp, db')
  | Raise e => (Raise e, db)
  end.

(** [create_short_url()]; [None] when the loop of step 4 is still running
    after [fuel] iterations. *)
Definition create_short_url (fuel : nat) (amb : ambient) (db : database) (data : body)
  : option outcome :=
  let original_url := url data in
  let validity_minutes := validity data in
  let custom_shortcode := shortcode data in
  if negb (truthy original_url) then
    Some (Ok (Error 400 "Invalid or missing URL"), db)
  else
    match original_url with
    | VStr original_url =>
        if negb (is_valid_url original_url) then
          Some (Ok (Error 400 "Invalid or missing URL"), db)
        else
          match calculate_expiry (utcnow amb 0) (expiry_minutes validity_minutes) with
          | Raise e => Some (Raise e, db)
          | Ok expires_at =>
              if truthy custom_shortcode then
                match custom_shortcode with
                | VStr custom_shortcode =>
                    if negb (shortcode_format_ok custom_shortcode) then
                      Some (Ok (Error 400 "Invalid custom shortcode format. Must be alphanumeric (4-20 chars) and can include _ or -"), db)
                    else
                      match select_url db custom_shortcode with
                      | Some _ =>
                          Some (Ok (Error 409 "Custom shortcode already in use. Please choose another or omit to auto-generate."), db)
                      | None =>
                          Some (store_url amb db original_url custom_shortcode expires_at)
                      end
                | _ => Some (Raise TypeError, db)   (* [re.match] on a non-string *)
                end
              else
                match generate_loop fuel amb db 0 with
                | None => None
                | Some final_shortcode =>
                    Some (store_url amb db original_url final_shortcode expires_at)
                end
          end
    | _ => Some (Raise TypeError, db)   (* [re.match] on a non-string *)
    end.

Definition click_view (click : click_row) : click_detail :=
  {| d_timestamp := timestamp click;
     d_referrer := referrer click;
     d_ipAddress := ip_address click;
     d_location := {| Utils.country := Database.country click;
                      Utils.region := Database.region click;
                      Utils.city := Database.city click |} |}.

(** [get_short_url_stats(shortcode)] *)
Definition get_short_url_stats (db : database) (shortcode : string)
  : outcome :=
  match select_url db shortcode with
  | None => (Ok (Error 404 "Short URL not found."), db)
  | Some url_entry =>
      let url_id := id url_entry in
      let clicks := select_clicks db url_id in
      let click_details := map click_view clicks in
      (Ok (Stats {| originalUrl := original_url url_entry;
                    creationDate := created_at url_entry;
                    expiryDate := expires_at url_entry;
                    totalClicks := List.length clicks;
                    clickDetails := click_details |}), db)
  end.

(** [request.referrer if request.referrer else 'Direct'] *)
Definition referrer_or_direct (r : option string) : string :=
  match r with
  | None | Some EmptyString => "Direct"
  | Some r => r
  end.

(** [flask.redirect(location)]: the response carries [location] in its
    [Location] header, and a header value that holds a newline or a
    carriage return is refused with [ValueError]. *)
Definition redirect (location : string) : result response :=
  if has_char is_line_break location then Raise ValueError
  else Ok (Redirect location).

(** [redirect_short_url(shortcode)] *)
Definition redirect_short_url (amb : ambient) (db : database)
    (request : http_request) (shortcode : string)
  : outcome :=
  match select_url db shortcode with
  | None => (Ok (Error 404 "Short URL not found."), db)
  | Some url_entry =>
      let expires_at_dt := expires_at url_entry in
      if expires_at_dt <? utcnow amb 0 then
        (Ok (Error 410 "Short URL has expired."), db)
      else
        let url_id := id url_entry in
        let client_ip := get_client_ip request in
        let geolocation_data := get_geolocation client_ip in
        let referrer := referrer_or_direct (http_referrer request) in
        let timestamp := utcnow amb 1 in
        match
          try_except_sqlite3_Error
            (insert_click (storage_fault amb) db url_id timestamp referrer
                          client_ip geolocation_data)
            (Ok db)
        with
        | Raise e => (Raise e, db)
        | Ok db' => (redirect (original_url url_entry), db')
        end
  end.

(** [@app.errorhandler(500)] *)
Definition internal_error : response := Error 500 "Internal Server Error".

(** Flask around a view: an exception that leaves the view is answered by
    the 500 handler, and the connection is closed without a further
    commit. *)
Definition dispatch (o : outcome) : response * database :=
  match o with
  | (Ok resp, db) => (resp, db)
  | (Raise _, db) => (internal_error, db)
  end.

Inductive request : Type :=
| PostShorturls (data : body)                         (* POST /shorturls *)
| GetStats (shortcode : string)                       (* GET /shorturls/<shortcode> *)
| GetRedirect (shortcode : string) (req : http_request).   (* GET /<shortcode> *)

Definition handle (fuel : nat) (amb : ambient) (db : database) (rq : request)
  : option (response * database) :=
  match rq with
  | PostShorturls data =>
      option_map dispatch (create_short_url fuel amb db data)
  | GetStats code => Some (dispatch (get_short_url_stats db code))
  | GetRedirect code req => Some (dispatch (redirect_short_url amb db req code))
  end.

(** The stores the service can be in: from the empty database, by requests. *)
Inductive reachable : database -> Prop :=
| reachable_init : reachable (init_db None)
| reachable_step fuel amb db rq resp db' :
    reachable db ->
    handle fuel amb db rq = Some (resp, db') ->
    reachable db'.

(* ------------------------------------------------------------------ *)
(** ** The rows the two INSERT statements add *)

Definition codes (db : database) : list string := map short_code (urls db).

Definition new_url (db : database) (u code : string) (created expires : Z) : url_row :=
  {| id := urls_seq db + 1; original_url := u; short_code := code;
     created_at := created; expires_at := expires |}.

Definition with_url (db : database) (row : url_row) : database :=
  {| urls := (urls db ++ [row])%list; urls_seq := urls_seq db + 1;
     clicks := clicks db; clicks_seq := clicks_seq db |}.

Definition with_click (db : database) (row : click_row) : database :=
  {| urls := urls db; urls_seq := urls_seq db;
     clicks := (clicks db ++ [row])%list; clicks_seq := clicks_seq db + 1 |}.

Definition new_click (db : database) (uid ts : Z) (ref : string) (ip : option string)
    (geo : geolocation) : click_row :=
  {| click_id := clicks_seq db + 1; url_id := uid; timestamp := ts;
     referrer := ref; ip_address := ip;
     Database.country := Utils.country geo;
     Database.region := Utils.region geo;
     Database.city := Utils.city geo |}.

(* ------------------------------------------------------------------ *)
(** ** The candidates of the retry loop *)

(** The code the [k]-th call of [generate_short_code()] returns. *)
Definition candidate (amb : ambient) (k : nat) : string := generate_short_code (uuid amb k).

(** Where the short code of a creation comes from. *)
Definition chosen_code (fuel : nat) (amb : ambient) (db : database) (data : body)
    (code : string) : Prop :=
  (shortcode data = VStr code /\ shortcode_format_ok code = true /\ code <> ""
   /\ ~ In code (codes db))
  \/ (truthy (shortcode data) = false /\ generate_loop fuel amb db 0 = Some code).

(* ------------------------------------------------------------------ *)
(** ** What a redirect records and what the statistics show *)

(** The click a redirect records for [e]. *)
Definition click_of (amb : ambient) (db : database) (req : http_request) (e : url_row)
  : click_row :=
  new_click db (id e) (utcnow amb 1) (referrer_or_direct (http_referrer req))
            (get_client_ip req) (get_geolocation (get_client_ip req)).

(** The store after the redirects [rs] of [code], served one after the
    other, each with its own ambient and request. *)
Fixpoint serve_redirects (db : database) (code : string)
    (rs : list (ambient * http_request)) : database :=
  match rs with
  | [] => db
  | (amb, req) :: rs' =>
      serve_redirects (snd (dispatch (redirect_short_url amb db req code))) code rs'
  end.

(** The body of the 200 answer of [get_short_url_stats] for the entry [e]. *)
Definition stats_of (db : database) (e : url_row) : stats_view :=
  {| originalUrl := original_url e;
     creationDate := created_at e;
     expiryDate := expires_at e;
     totalClicks := List.length (select_clicks db (id e));
     clickDetails := map click_view (select_clicks db (id e)) |}.

(** The store after any number of further requests. *)
Inductive steps : database -> database -> Prop :=
| steps_refl db : steps db db
| steps_next fuel amb db1 db2 rq resp db3 :
    steps db1 db2 ->
    handle fuel amb db2 rq = Some (resp, db3) ->
    steps db1 db3.

(* ------------------------------------------------------------------ *)
(** ** The invariant of the store *)

Record well_formed (db : database) : Prop := {
  wf_codes : NoDup (codes db);
  wf_seq : 0 <= urls_seq db;
  wf_ids : Forall (fun r => 0 < id r <= urls_seq db) (urls db);
  wf_refs : Forall (fun c => exists r, In r (urls db) /\ id r = url_id c) (clicks db)
}.

(** The ids an AUTOINCREMENT column gives to [n] rows. *)
Definition count_from_1 (n : nat) : list Z := map Z.of_nat (seq 1 n).

(** The location a click row holds agrees with its address. *)
Definition located (c : click_row) : Prop :=
  ((ip_address c = None \/ ip_address c = Some "")
   /\ Database.country c = "Unknown" /\ Database.region c = "Unknown"
   /\ Database.city c = "Unknown")
  \/ ((exists ip, ip_address c = Some ip /\ ip <> "")
      /\ Database.country c = "India" /\ Database.region c = "Andhra Pradesh"
      /\ Database.city c = "Kadapa").

End App.

(* ================================================================== *)
(** * Statements of the specification *)
(* ================================================================== *)

Module Spec.
Import Text Py Utils Database App.

Local Open Scope Z_scope.

(* ------------------------------------------------------------------ *)
(** ** Custom codes *)

Definition code_char (c : ascii) : bool :=
  is_alpha c || is_digit c || Ascii.eqb c "_" || Ascii.eqb c "-".

(** The format of the specification, [^[A-Za-z0-9_-]{4,20}$]: between 4
    and 20 characters, each a letter, a digit, [_] or [-]. *)
Definition validateCustomCode (code : string) : bool :=
  (4 <=? String.length code)%nat && (String.length code <=? 20)%nat
  && all_chars code_char code.

(* ------------------------------------------------------------------ *)
(** ** Expiry *)

(** [expiresAt == createdAt + validityMinutes] exactly, on the stored row,
    for all validity values above 0. *)
Definition expiry_is_creation_plus_validity : Prop :=
  forall fuel amb db data z link exp db' row,
    handle fuel amb db (PostShorturls data) = Some (Created link exp, db') ->
    validity data = VInt z -> 0 < z ->
    urls db' = (urls db ++ [row])%list ->
    expires_at row = created_at row + z * 60000000.

(* ------------------------------------------------------------------ *)
(** ** The retry loop of the generator *)

(** The retry loop terminates for every store state: whatever the
    generator returns and whatever the store holds, some number of
    iterations ends the loop. *)
Definition retry_loop_always_ends : Prop :=
  forall amb db, exists fuel code, generate_loop fuel amb db 0 = Some code.

End Spec.

(* ================================================================== *)
(** * The URL grammar of the specification *)
(* ================================================================== *)

Module Grammar.
Import Text.

Definition alnum_char (c : ascii) : bool := is_alpha c || is_digit c.
Definition label_char (c : ascii) : bool := alnum_char c || Ascii.eqb c "-".
Definition visible_char (c : ascii) : bool := negb (is_space c).

(** [http], [https], [ftp] or [ftps], in any case. *)
Definition scheme (s : string) : Prop :=
  In (lower s) ["http"; "https"; "ftp"; "ftps"].

(** A domain label: 1 to 63 letters, digits and hyphens, the first and the
    last of them a letter or a digit. *)
Definition label (s : string) : Prop :=
  (exists c, s = String c "" /\ alnum_char c = true)
  \/ (exists a mid z,
         s = String a mid ++ String z ""
         /\ alnum_char a = true /\ alnum_char z = true
         /\ all_chars label_char mid = true
         /\ (String.length mid <= 61)%nat).

(** The last part of a domain: 2 to 6 letters, or 2 or more letters, digits
    and hyphens; a closing dot is allowed. *)
Definition tld (s : string) : Prop :=
  exists t dot,
    s = t ++ dot /\ (dot = "" \/ dot = ".")
    /\ (((2 <= String.length t <= 6)%nat /\ all_chars is_alpha t = true)
        \/ ((2 <= String.length t)%nat /\ all_chars label_char t = true)).

Fixpoint dotted (labels : list string) : string :=
  match labels with
  | [] => ""
  | l :: ls => l ++ "." ++ dotted ls
  end.

(** One or more labels, each followed by a dot, then the last part. *)
Definition domain (s : string) : Prop :=
  exists labels t,
    labels <> [] /\ Forall label labels /\ tld t /\ s = dotted labels ++ t.

Definition octet (s : string) : Prop :=
  (1 <= String.length s <= 3)%nat /\ all_chars is_digit s = true.

(** Four groups of 1 to 3 digits separated by dots. *)
Definition ipv4 (s : string) : Prop :=
  exists a b c d,
    octet a /\ octet b /\ octet c /\ octet d
    /\ s = a ++ "." ++ b ++ "." ++ c ++ "." ++ d.

Definition host (s : string) : Prop :=
  domain s \/ lower s = "localhost" \/ ipv4 s.

Definition port (s : string) : Prop :=
  s = "" \/ exists ds, s = ":" ++ ds /\ (1 <= String.length ds)%nat
                        /\ all_chars is_digit ds = true.

(** Nothing, a lone [/], or [/] or [?] followed by visible characters. *)
Definition path_query (s : string) : Prop :=
  s = "" \/ s = "/"
  \/ exists c rest, s = String c rest /\ (c = "/"%char \/ c = "?"%char)
                     /\ (1 <= String.length rest)%nat
                     /\ all_chars visible_char rest = true.

Definition absolute_url (s : string) : Prop :=
  exists sch h p t,
    s = sch ++ "://" ++ h ++ p ++ t
    /\ scheme sch /\ host h /\ port p /\ path_query t.

End Grammar.

(* ================================================================== *)
(** * Concrete requests and stores *)
(* ================================================================== *)

Module Examples.
Import Text Re Py Utils Database App.

Local Open Scope Z_scope.

Definition t0 : Z := 63871286400000000.   (* 2025-01-01T00:00:00 *)

Definition clock (first later : Z) (k : nat) : Z :=
  match k with
  | O => first
  | S _ => later
  end.

Definition page : string := "https://example.com/page".

Definition one_uuid : nat -> string := fun _ => "vytxeTZskVKR7C7WgdSP3d".

Definition third_uuid (k : nat) : string :=
  match k with
  | 0%nat | 1%nat => "vytxeTZskVKR7C7WgdSP3d"
  | _ => "3kTMd9xQ2nLbYfWcRpHs7u"
  end.

(** A request served 1.5 ms after its first reading of the clock. *)
Definition env (now : Z) (fault : bool) (ids : nat -> string) : ambient :=
  {| utcnow := clock now (now + 1500);
     uuid := ids;
     storage_fault := fault;
     base_url := Some "http://localhost:5000" |}.

Definition post (v c : value) : body :=
  {| url := VStr page; validity := v; shortcode := c |}.

Definition browser : http_request :=
  {| x_forwarded_for := None;
     remote_addr := Some "127.0.0.1";
     http_referrer := None |}.

(** After [POST {url, validity: 5, shortcode: "abcd"}] on the empty store. *)
Definition db_custom : database :=
  with_url (init_db None)
           (new_url (init_db None) page "abcd" (t0 + 1500) (t0 + 5 * 60000000)).

(** After [POST {url}] on the empty store. *)
Definition db_auto : database :=
  with_url (init_db None)
           (new_url (init_db None) page "vytxeTZ" (t0 + 1500) (t0 + 30 * 60000000)).

Definition abcd_row : url_row :=
  new_url (init_db None) page "abcd" (t0 + 1500) (t0 + 5 * 60000000).

(** A URL that [is_valid_url] accepts with its final newline. *)
Definition localhost_nl : string := "http://localhost" ++ String newline "".

Definition newline_row : url_row :=
  new_url (init_db None) localhost_nl "abcd" (t0 + 1500) (t0 + 30 * 60000000).

(** After [POST {url: "http://localhost\n", shortcode: "abcd"}] on the empty
    store. *)
Definition db_newline : database := with_url (init_db None) newline_row.

(** A second visitor, behind a proxy and coming from a page. *)
Definition visitor : http_request :=
  {| x_forwarded_for := Some "203.0.113.7, 10.0.0.1";
     remote_addr := Some "10.0.0.2";
     http_referrer := Some "https://example.org/" |}.

(** The click of a redirect of ["abcd"] one minute after its creation. *)
Definition abcd_click : click_row :=
  click_of (env (t0 + 60000000) false one_uuid) db_custom browser abcd_row.

(** After that redirect. *)
Definition db_clicked : database := with_click db_custom abcd_click.

End Examples.

(* ================================================================== *)
(** * Facts about strings *)
(* ================================================================== *)

Module TextFacts.
Import Text.

Lemma append_nil_r (s : string) : s ++ "" = s.
Proof. induction s as [|c s IH]; simpl; [reflexivity | now rewrite IH]. Qed.

Lemma append_assoc (s t u : string) : (s ++ t) ++ u = s ++ (t ++ u).
Proof. induction s as [|c s IH]; simpl; [reflexivity | now rewrite IH]. Qed.

Lemma append_inj_l (p s t : string) : p ++ s = p ++ t -> s = t.
Proof. induction p as [|c p IH]; simpl; intros H; [exact H | injection H; auto]. Qed.

Lemma length_append (s t : string) :
  String.length (s ++ t) = (String.length s + String.length t)%nat.
Proof. induction s as [|c s IH]; simpl; [reflexivity | now rewrite IH]. Qed.

Lemma all_chars_app p s t :
  all_chars p (s ++ t) = all_chars p s && all_chars p t.
Proof.
  unfold all_chars. induction s as [|c s IH]; simpl; [reflexivity|].
  rewrite IH. now rewrite andb_assoc.
Qed.

Lemma all_chars_ext p q s :
  (forall c, p c = q c) -> all_chars p s = all_chars q s.
Proof.
  intros H. unfold all_chars. induction (list_ascii_of_string s) as [|c l IH]; simpl;
    [reflexivity | now rewrite H, IH].
Qed.

Lemma take_drop n : forall s, take n s ++ drop n s = s.
Proof.
  induction n as [|n IH]; intros [|c s]; simpl; try reflexivity. now rewrite IH.
Qed.

Lemma length_take n : forall s,
  (n <= String.length s)%nat -> String.length (take n s) = n.
Proof.
  induction n as [|n IH]; intros [|c s]; simpl; intros H; try reflexivity; try lia.
  rewrite IH; [reflexivity | lia].
Qed.

Lemma length_drop n : forall s, String.length (drop n s) = (String.length s - n)%nat.
Proof.
  induction n as [|n IH]; intros [|c s]; simpl; try reflexivity. apply IH.
Qed.

Lemma all_chars_split p n s :
  all_chars p s = true -> all_chars p (take n s) = true /\ all_chars p (drop n s) = true.
Proof.
  intros H. rewrite <- (take_drop n s), all_chars_app in H.
  now apply andb_true_iff in H.
Qed.

(** ** Checking a property of characters on all of them *)

Lemma all_ascii_complete (c : ascii) : In c all_ascii.
Proof.
  unfold all_ascii. rewrite <- (ascii_nat_embedding c).
  apply in_map, in_seq. pose proof (nat_ascii_bounded c). lia.
Qed.

Lemma for_all_ascii (P : ascii -> bool) :
  forallb P all_ascii = true -> forall c, P c = true.
Proof.
  intros H c. rewrite forallb_forall in H. apply H, all_ascii_complete.
Qed.

(** ** Cases of letters *)

Lemma to_upper_cases c :
  Ascii.eqb (to_upper c) c || between "A" "Z" (to_upper c) = true.
Proof. revert c. apply for_all_ascii. vm_compute. reflexivity. Qed.

Lemma to_lower_cases c :
  between "A" "Z" c || Ascii.eqb (to_lower c) c = true.
Proof. revert c. apply for_all_ascii. vm_compute. reflexivity. Qed.

Lemma to_lower_of_upper c :
  negb (between "A" "Z" c) || is_alpha (to_lower c) = true.
Proof. revert c. apply for_all_ascii. vm_compute. reflexivity. Qed.

(** ** Lower case *)

Lemma lower_app s t : lower (s ++ t) = lower s ++ lower t.
Proof. induction s as [|c s IH]; simpl; [reflexivity | now rewrite IH]. Qed.

Lemma lower_length s : String.length (lower s) = String.length s.
Proof. induction s as [|c s IH]; simpl; [reflexivity | now rewrite IH]. Qed.

Lemma lower_take n : forall s, lower (take n s) = take n (lower s).
Proof. induction n as [|n IH]; intros [|c s]; simpl; try reflexivity. now rewrite IH. Qed.

Lemma lower_drop n : forall s, lower (drop n s) = drop n (lower s).
Proof. induction n as [|n IH]; intros [|c s]; simpl; try reflexivity. apply IH. Qed.

(** A text without letters is the lower case of itself only. *)
Lemma lower_fixed x : forall s,
  has_char is_alpha x = false -> lower s = x -> s = x.
Proof.
  induction x as [|a x IH]; intros [|c s]; simpl; try discriminate; [reflexivity|].
  unfold has_char; simpl. intros Hx E. apply orb_false_iff in Hx as [Ha Hx].
  injection E as E1 E2. rewrite (IH s Hx E2). f_equal.
  pose proof (to_lower_cases c) as Hl. pose proof (to_lower_of_upper c) as Hu.
  destruct (between "A" "Z" c); simpl in *.
  - rewrite E1 in Hu. congruence.
  - apply Ascii.eqb_eq in Hl. congruence.
Qed.

Lemma lower_nil s : lower s = "" -> s = "".
Proof. destruct s; [reflexivity | discriminate]. Qed.

End TextFacts.

(* ================================================================== *)
(** * The matcher decides the language of an expression *)
(* ================================================================== *)

Module ReFacts.
Import Text TextFacts Re.

#[local] Hint Constructors lang : core.

Ltac inv H := inversion H; subst; clear H.

Lemma nullable_lang r : nullable r = true <-> lang r "".
Proof.
  induction r; simpl; split; intros H; try discriminate; auto.
  - inv H.
  - inv H.
  - apply andb_true_iff in H as [H1 H2].
    change "" with ("" ++ ""). constructor; [apply IHr1 | apply IHr2]; assumption.
  - inv H. destruct u; [|discriminate]. simpl in *. subst.
    apply andb_true_iff. split; [apply IHr1 | apply IHr2]; assumption.
  - apply orb_true_iff in H as [H|H]; [apply lang_alt_l, IHr1 | apply lang_alt_r, IHr2]; assumption.
  - apply orb_true_iff. inv H; [left; apply IHr1 | right; apply IHr2]; assumption.
Qed.

Lemma lang_cat_smart r s w : lang (cat r s) w <-> lang (Cat r s) w.
Proof.
  split; intros H.
  - destruct r; destruct s; simpl in H; try (now inv H); auto;
      try (change w with ("" ++ w); constructor; auto).
  - inv H. destruct r; destruct s; simpl; auto;
      try match goal with Hv : lang Void _ |- _ => now inv Hv end;
      repeat match goal with He : lang Eps _ |- _ => inv He end; simpl; auto.
Qed.

Lemma lang_alt_smart r s w : lang (alt r s) w <-> lang (Alt r s) w.
Proof.
  split; intros H.
  - destruct r; destruct s; simpl in H; auto.
  - inv H; destruct r; destruct s; simpl; auto;
      match goal with Hv : lang Void _ |- _ => now inv Hv end.
Qed.

Lemma lang_cat_inv r s w :
  lang (Cat r s) w -> exists u v, w = u ++ v /\ lang r u /\ lang s v.
Proof. intros H. inv H. eauto. Qed.

Lemma lang_alt_inv r s w : lang (Alt r s) w <-> lang r w \/ lang s w.
Proof. split; [intros H; inv H; auto | intros [H|H]; auto]. Qed.

Lemma lang_eps_inv w : lang Eps w <-> w = "".
Proof. split; [intros H; now inv H | intros ->; auto]. Qed.

(** A non-empty word of [Star r] starts with a non-empty word of [r]. *)
Lemma lang_star_cons r c w :
  lang (Star r) (String c w) ->
  exists u v, w = u ++ v /\ lang r (String c u) /\ lang (Star r) v.
Proof.
  intros H. remember (Star r) as sr eqn:Er. remember (String c w) as cw eqn:Ew.
  induction H; try discriminate.
  injection Er as ->.
  destruct u as [|a u]; simpl in Ew.
  - apply IHlang2; auto.
  - injection Ew as -> <-. exists u, v. auto.
Qed.

Lemma deriv_lang r : forall c w, lang (deriv c r) w <-> lang r (String c w).
Proof.
  induction r; intros c w; simpl.
  - split; intros H; inv H.
  - split; intros H; inv H.
  - destruct (p c) eqn:E; split; intros H.
    + inv H. auto.
    + inv H. constructor.
    + inv H.
    + inv H. congruence.
  - assert (Hc : lang (cat (deriv c r1) r2) w <->
                 exists u v, w = u ++ v /\ lang r1 (String c u) /\ lang r2 v).
    { rewrite lang_cat_smart. split.
      - intros H. inv H. exists u, v. rewrite <- IHr1. auto.
      - intros (u & v & -> & H1 & H2). constructor; [apply IHr1|]; assumption. }
    assert (Hsplit : lang (Cat r1 r2) (String c w) <->
                     (exists u v, w = u ++ v /\ lang r1 (String c u) /\ lang r2 v)
                     \/ (lang r1 "" /\ lang r2 (String c w))).
    { split.
      - intros H. apply lang_cat_inv in H as (u & v & E & H1 & H2).
        destruct u as [|a u]; simpl in E.
        + right. subst. auto.
        + injection E as <- ->. left. eauto.
      - intros [(u & v & -> & H1 & H2) | [H1 H2]].
        + change (String c (u ++ v)) with (String c u ++ v). auto.
        + change (String c w) with ("" ++ String c w). auto. }
    rewrite Hsplit. destruct (nullable r1) eqn:N.
    + rewrite lang_alt_smart. split.
      * intros H. inv H; [left; apply Hc; assumption|].
        right. split; [apply nullable_lang; assumption | apply IHr2; assumption].
      * intros [H | [_ H]]; [apply lang_alt_l, Hc; assumption | apply lang_alt_r, IHr2; assumption].
    + rewrite Hc. split; [auto|].
      intros [H | [H _]]; [assumption|].
      apply nullable_lang in H. congruence.
  - rewrite lang_alt_smart. split; intros H; inv H;
      solve [apply lang_alt_l, IHr1; assumption | apply lang_alt_r, IHr2; assumption].
  - rewrite lang_cat_smart. split; intros H.
    + inv H. change (String c (u ++ v)) with (String c u ++ v).
      constructor; [apply IHr|]; assumption.
    + apply lang_star_cons in H as (u & v & -> & H1 & H2).
      constructor; [apply IHr|]; assumption.
Qed.

Lemma matches_lang r s : matches r s = true <-> lang r s.
Proof.
  revert r. induction s as [|c s IH]; intros r; simpl.
  - apply nullable_lang.
  - rewrite IH. apply deriv_lang.
Qed.

(** [match_dollar] is a whole-string match, up to one final newline. *)
Lemma match_dollar_spec r s :
  match_dollar r s = true <->
  lang r s \/ exists s', s = s' ++ String newline "" /\ lang r s'.
Proof.
  revert r. induction s as [|c s IH]; intros r; simpl.
  - rewrite nullable_lang. split; [auto|].
    intros [H | (s' & E & _)]; [assumption|]. destruct s'; discriminate.
  - rewrite orb_true_iff, IH, !andb_true_iff, deriv_lang, nullable_lang.
    split.
    + intros [[[H1 H2] H3] | [H | (s' & -> & H)]].
      * apply Ascii.eqb_eq in H2. apply String.eqb_eq in H3. subst.
        right. exists "". auto.
      * auto.
      * right. exists (String c s'). split; [reflexivity|]. apply deriv_lang; assumption.
    + intros [H | (s' & E & H)]; [auto|].
      destruct s' as [|a s']; simpl in E.
      * injection E as -> ->. left. rewrite Ascii.eqb_refl. auto.
      * injection E as <- ->. right. right. exists s'.
        split; [reflexivity|]. apply deriv_lang; assumption.
Qed.

(** ** Words of the repetitions of a character class *)

Lemma lang_chr_inv p s : lang (Chr p) s <-> exists c, s = String c "" /\ p c = true.
Proof.
  split.
  - intros H. inv H. eauto.
  - intros (c & -> & H). auto.
Qed.

Lemma lang_star_chr p s : lang (Star (Chr p)) s <-> all_chars p s = true.
Proof.
  split.
  - intros H. remember (Star (Chr p)) as r eqn:Er.
    induction H; try discriminate; [reflexivity|].
    injection Er as ->. rewrite all_chars_app.
    apply lang_chr_inv in H as (c & -> & Hc).
    rewrite IHlang2 by reflexivity. unfold all_chars; simpl. now rewrite Hc.
  - induction s as [|c s IH]; [auto|].
    unfold all_chars; simpl. intros H. apply andb_true_iff in H as [H1 H2].
    change (String c s) with (String c "" ++ s). auto.
Qed.

Lemma lang_rep_upto_chr p n : forall s,
  lang (rep_upto n (Chr p)) s <-> (String.length s <= n)%nat /\ all_chars p s = true.
Proof.
  induction n as [|n IH]; intros s; simpl.
  - split.
    + intros H. inv H. auto.
    + intros [H _]. destruct s; [auto | simpl in H; lia].
  - split.
    + intros H. apply lang_alt_inv in H as [H|H].
      * apply lang_cat_inv in H as (u & v & -> & Hu & Hv).
        apply lang_chr_inv in Hu as (c & -> & Hc). apply IH in Hv as [Hl Ha].
        simpl. split; [lia|]. unfold all_chars in *; simpl. now rewrite Hc.
      * apply lang_eps_inv in H as ->. simpl. split; [lia | reflexivity].
    + intros [Hl Ha]. destruct s as [|c s]; [auto|].
      unfold all_chars in Ha; simpl in Ha, Hl. apply andb_true_iff in Ha as [H1 H2].
      apply lang_alt_l. change (String c s) with (String c "" ++ s).
      constructor; [auto|]. apply IH. split; [lia | assumption].
Qed.

Lemma lang_rep_from_chr p tail m : forall s,
  lang (rep_from m (Chr p) tail) s <->
  exists u v, s = u ++ v /\ String.length u = m /\ all_chars p u = true /\ lang tail v.
Proof.
  induction m as [|m IH]; intros s; simpl.
  - split.
    + intros H. exists "", s. auto.
    + intros (u & v & -> & Hl & _ & H). destruct u; [assumption | discriminate].
  - split.
    + intros H. apply lang_cat_inv in H as (a & w & -> & Ha & Hw).
      apply lang_chr_inv in Ha as (c & -> & Hc).
      apply IH in Hw as (u & v & -> & Hl & Hu & Hv).
      exists (String c u), v. simpl. repeat split; auto.
      unfold all_chars in *; simpl. now rewrite Hc.
    + intros (u & v & -> & Hl & Hu & Hv). destruct u as [|c u]; [discriminate|].
      simpl in Hl. injection Hl as Hl.
      unfold all_chars in Hu; simpl in Hu. apply andb_true_iff in Hu as [H1 H2].
      change (String c u ++ v) with (String c "" ++ (u ++ v)).
      constructor; [auto|]. apply IH. exists u, v. auto.
Qed.

(** [[...]{lo,hi}] *)
Lemma lang_repeat_chr_bounded p lo hi s :
  (lo <= hi)%nat ->
  (lang (repeat_regex (Chr p) lo (Some hi)) s <->
   (lo <= String.length s <= hi)%nat /\ all_chars p s = true).
Proof.
  intros Hle. unfold repeat_regex. rewrite lang_rep_from_chr. split.
  - intros (u & v & -> & Hl & Hu & Hv). apply lang_rep_upto_chr in Hv as [Hlv Hv].
    rewrite length_append, all_chars_app, Hu, Hv. split; [lia | reflexivity].
  - intros [Hl Ha]. exists (take lo s), (drop lo s).
    destruct (all_chars_split p lo s Ha) as [H1 H2].
    rewrite take_drop, length_take by lia. repeat split; auto.
    apply lang_rep_upto_chr. rewrite length_drop. split; [lia | assumption].
Qed.

(** [[...]{lo,}] *)
Lemma lang_repeat_chr_unbounded p lo s :
  lang (repeat_regex (Chr p) lo None) s <->
  (lo <= String.length s)%nat /\ all_chars p s = true.
Proof.
  unfold repeat_regex. rewrite lang_rep_from_chr. split.
  - intros (u & v & -> & Hl & Hu & Hv). apply lang_star_chr in Hv.
    rewrite length_append, all_chars_app, Hu, Hv. split; [lia | reflexivity].
  - intros [Hl Ha]. exists (take lo s), (drop lo s).
    destruct (all_chars_split p lo s Ha) as [H1 H2].
    rewrite take_drop, length_take by lia. repeat split; auto.
    now apply lang_star_chr.
Qed.

End ReFacts.

(* ================================================================== *)
(** * The store and the outcomes of the requests *)
(* ================================================================== *)

Module AppFacts.
Import Text TextFacts Re ReFacts Py Utils Database App Spec.

Local Open Scope Z_scope.

(* ------------------------------------------------------------------ *)
(** ** Lookups and the two INSERT statements *)

Lemma select_url_none db code : select_url db code = None <-> ~ In code (codes db).
Proof.
  unfold select_url, codes. induction (urls db) as [|r l IH]; simpl.
  - tauto.
  - destruct (String.eqb_spec (short_code r) code) as [E|E].
    + split; [discriminate | intros H; contradict H; auto].
    + rewrite IH. tauto.
Qed.

Lemma select_url_some db code e :
  select_url db code = Some e -> In e (urls db) /\ short_code e = code.
Proof.
  unfold select_url. intros H. apply find_some in H as [H1 H2].
  apply String.eqb_eq in H2. auto.
Qed.

Lemma select_url_app l1 seq1 cl cs l2 seq2 cl2 cs2 code e :
  select_url {| urls := l1; urls_seq := seq1; clicks := cl; clicks_seq := cs |} code = Some e ->
  select_url {| urls := (l1 ++ l2)%list; urls_seq := seq2; clicks := cl2; clicks_seq := cs2 |} code
  = Some e.
Proof.
  unfold select_url; simpl. induction l1 as [|r l IH]; simpl; [discriminate|].
  destruct (String.eqb (short_code r) code); auto.
Qed.

Lemma existsb_code_in db code :
  existsb (fun r => String.eqb (short_code r) code) (urls db) = true <-> In code (codes db).
Proof.
  unfold codes. rewrite existsb_exists, in_map_iff. split.
  - intros (r & H1 & H2). apply String.eqb_eq in H2. eauto.
  - intros (r & H1 & H2). exists r. split; [assumption|]. now apply String.eqb_eq.
Qed.

Lemma insert_url_ok fault db u code created expires db' :
  insert_url fault db u code created expires = Ok db' ->
  fault = false /\ ~ In code (codes db) /\
  db' = with_url db (new_url db u code created expires).
Proof.
  unfold insert_url. destruct fault; [discriminate|].
  destruct (existsb _ _) eqn:E; [discriminate|].
  intros H. injection H as <-. repeat split.
  intros Hin. apply existsb_code_in in Hin. congruence.
Qed.

Lemma insert_url_fresh db u code created expires :
  ~ In code (codes db) ->
  insert_url false db u code created expires =
  Ok (with_url db (new_url db u code created expires)).
Proof.
  intros H. unfold insert_url.
  destruct (existsb _ _) eqn:E; [|reflexivity].
  apply existsb_code_in in E. contradiction.
Qed.

Lemma insert_click_ok fault db uid ts ref ip geo db' :
  insert_click fault db uid ts ref ip geo = Ok db' ->
  fault = false /\ db' = with_click db (new_click db uid ts ref ip geo).
Proof.
  unfold insert_click. destruct fault; [discriminate|].
  intros H. injection H as <-. auto.
Qed.

(* ------------------------------------------------------------------ *)
(** ** The [except] clauses of [app.py] *)

(** [sqlite3] is not among the names of [app.py]. *)
Lemma sqlite3_unbound : name_bound "sqlite3" = false.
Proof. reflexivity. Qed.

Lemma try_except_unbound {A} (body handler : result A) :
  try_except_sqlite3_Error body handler =
  match body with
  | Ok a => Ok a
  | Raise _ => Raise (NameError "sqlite3")
  end.
Proof. unfold try_except_sqlite3_Error. rewrite sqlite3_unbound. reflexivity. Qed.

(* ------------------------------------------------------------------ *)
(** ** The retry loop *)

Lemma generate_loop_sound fuel amb db : forall k code,
  generate_loop fuel amb db k = Some code ->
  exists n, (n < fuel)%nat /\ code = candidate amb (k + n) /\
            ~ In code (codes db) /\
            forall j, (j < n)%nat -> In (candidate amb (k + j)) (codes db).
Proof.
  induction fuel as [|fuel IH]; intros k code; simpl; [discriminate|].
  fold (candidate amb k).
  destruct (select_url db (candidate amb k)) eqn:E.
  - intros H. apply IH in H as (n & Hn & -> & Hfree & Hcol).
    exists (S n). rewrite Nat.add_succ_r. repeat split; [lia | assumption |].
    intros [|j] Hj.
    + rewrite Nat.add_0_r. destruct (in_dec string_dec (candidate amb k) (codes db)) as [|N];
        [assumption|]. apply select_url_none in N. congruence.
    + rewrite Nat.add_succ_r. apply Hcol. lia.
  - intros H. injection H as <-. exists 0%nat. rewrite Nat.add_0_r.
    repeat split; [lia | now apply select_url_none | intros j Hj; lia].
Qed.

Lemma generate_loop_complete amb db : forall n fuel k,
  (forall j, (j < n)%nat -> In (candidate amb (k + j)) (codes db)) ->
  ~ In (candidate amb (k + n)) (codes db) ->
  (n < fuel)%nat ->
  generate_loop fuel amb db k = Some (candidate amb (k + n)).
Proof.
  induction n as [|n IH]; intros fuel k Hcol Hfree Hfuel;
    (destruct fuel as [|fuel]; [lia|]); simpl; fold (candidate amb k).
  - rewrite Nat.add_0_r in *. apply select_url_none in Hfree. now rewrite Hfree.
  - destruct (select_url db (candidate amb k)) eqn:E.
    + rewrite Nat.add_succ_r. apply (IH fuel (S k)); [| | lia].
      * intros j Hj. simpl. rewrite <- Nat.add_succ_r. apply Hcol. lia.
      * simpl. now rewrite <- Nat.add_succ_r.
    + apply select_url_none in E. specialize (Hcol 0%nat). rewrite Nat.add_0_r in Hcol.
      exfalso. apply E, Hcol. lia.
Qed.

Lemma generate_loop_starved amb db : forall fuel k,
  (forall j, In (candidate amb (k + j)) (codes db)) ->
  generate_loop fuel amb db k = None.
Proof.
  induction fuel as [|fuel IH]; intros k H; simpl; [reflexivity|].
  fold (candidate amb k).
  destruct (select_url db (candidate amb k)) eqn:E.
  - apply IH. intros j. specialize (H (S j)). now rewrite Nat.add_succ_r in H.
  - apply select_url_none in E. specialize (H 0%nat). rewrite Nat.add_0_r in H. contradiction.
Qed.

(* ------------------------------------------------------------------ *)
(** ** Custom codes *)

Lemma code_char_set c :
  fold_case false
    (set_has [Range "a" "z"; Range "A" "Z"; Range "0" "9"; Single "_"; Single "-"]) c
  = code_char c.
Proof.
  destruct c as [[] [] [] [] [] [] [] []]; reflexivity.
Qed.

Lemma lang_shortcode_pattern code :
  lang (compile false shortcode_pattern) code <-> validateCustomCode code = true.
Proof.
  unfold shortcode_pattern, validateCustomCode. simpl compile.
  rewrite lang_repeat_chr_bounded by lia.
  rewrite (all_chars_ext _ _ code code_char_set).
  rewrite !andb_true_iff, !Nat.leb_le. tauto.
Qed.

(** The check of the handler accepts the codes of that format and, because
    of [$], those followed by one newline. *)
Lemma shortcode_format_ok_iff code :
  shortcode_format_ok code = true <->
  validateCustomCode code = true \/
  exists code', code = code' ++ String newline "" /\ validateCustomCode code' = true.
Proof.
  unfold shortcode_format_ok, re_match_anchored. rewrite match_dollar_spec.
  rewrite lang_shortcode_pattern.
  split; (intros [H | (c' & E & H)]; [left; assumption | right; exists c'; split; [assumption|]]);
    now apply lang_shortcode_pattern.
Qed.

Lemma validateCustomCode_truthy code :
  validateCustomCode code = true -> truthy (VStr code) = true.
Proof.
  destruct code; [discriminate | reflexivity].
Qed.

(* ------------------------------------------------------------------ *)
(** ** The outcomes of a creation request *)

Lemma store_url_eq amb db u code exp :
  store_url amb db u code exp =
  match insert_url (storage_fault amb) db u code (utcnow amb 1) exp with
  | Ok db' => (Ok (Created (short_link amb code) exp), db')
  | Raise _ => (Raise (NameError "sqlite3"), db)
  end.
Proof.
  unfold store_url. rewrite try_except_unbound.
  destruct (insert_url _ _ _ _ _ _); reflexivity.
Qed.

Lemma is_valid_url_nonempty u : is_valid_url u = true -> u <> "".
Proof. intros H ->. discriminate. Qed.

Lemma create_success fuel amb db data u exp code :
  url data = VStr u ->
  is_valid_url u = true ->
  calculate_expiry (utcnow amb 0) (expiry_minutes (validity data)) = Ok exp ->
  storage_fault amb = false ->
  chosen_code fuel amb db data code ->
  handle fuel amb db (PostShorturls data)
  = Some (Created (short_link amb code) exp,
          with_url db (new_url db u code (utcnow amb 1) exp)).
Proof.
  intros Hu Hv He Hf Hc. simpl. unfold create_short_url.
  rewrite Hu, Hv, He. simpl.
  destruct u as [|a u]; [discriminate|]. simpl.
  assert (Hst : forall c, ~ In c (codes db) ->
            store_url amb db (String a u) c exp
            = (Ok (Created (short_link amb c) exp),
               with_url db (new_url db (String a u) c (utcnow amb 1) exp))).
  { intros c Hfree. rewrite store_url_eq, Hf, insert_url_fresh by assumption. reflexivity. }
  destruct Hc as [(Hs & Hfmt & Hne & Hfree) | (Hs & Hg)].
  - rewrite Hs. destruct code as [|b code]; [congruence|]. simpl.
    rewrite Hfmt. simpl.
    apply select_url_none in Hfree as Hsel. rewrite Hsel.
    simpl. now rewrite Hst.
  - rewrite Hs, Hg. simpl.
    apply generate_loop_sound in Hg as (n & _ & _ & Hfree & _).
    now rewrite Hst.
Qed.

Lemma create_cases fuel amb db data resp db' :
  handle fuel amb db (PostShorturls data) = Some (resp, db') ->
  (db' = db /\ exists st msg, resp = Error st msg) \/
  (exists u code exp,
      url data = VStr u /\ is_valid_url u = true /\
      calculate_expiry (utcnow amb 0) (expiry_minutes (validity data)) = Ok exp /\
      storage_fault amb = false /\
      chosen_code fuel amb db data code /\
      resp = Created (short_link amb code) exp /\
      db' = with_url db (new_url db u code (utcnow amb 1) exp)).
Proof.
  simpl. unfold create_short_url.
  assert (Hst : forall u c exp,
            is_valid_url u = true ->
            calculate_expiry (utcnow amb 0) (expiry_minutes (validity data)) = Ok exp ->
            url data = VStr u ->
            chosen_code fuel amb db data c ->
            option_map dispatch (Some (store_url amb db u c exp)) = Some (resp, db') ->
            (db' = db /\ exists st msg, resp = Error st msg) \/
            (exists u code exp,
                url data = VStr u /\ is_valid_url u = true /\
                calculate_expiry (utcnow amb 0) (expiry_minutes (validity data)) = Ok exp /\
                storage_fault amb = false /\
                chosen_code fuel amb db data code /\
                resp = Created (short_link amb code) exp /\
                db' = with_url db (new_url db u code (utcnow amb 1) exp))).
  { intros u c exp Hv He Hu Hc. rewrite store_url_eq.
    destruct (insert_url _ _ _ _ _ _) as [d|e] eqn:Hi; simpl; intros H; injection H as <- <-.
    - apply insert_url_ok in Hi as (Hf & _ & ->). right. exists u, c, exp. repeat split; auto.
    - left. split; [reflexivity|]. unfold internal_error. eauto. }
  destruct (truthy (url data)) eqn:Ht; simpl;
    [| intros H; injection H as <- <-; left; eauto].
  destruct (url data) as [ | b | z | u | t] eqn:Hu;
    try (simpl; intros H; injection H as <- <-; left; unfold internal_error; now eauto).
  destruct (is_valid_url u) eqn:Hv; simpl;
    [| intros H; injection H as <- <-; left; eauto].
  destruct (calculate_expiry _ _) as [exp|e] eqn:He;
    [| simpl; intros H; injection H as <- <-; left; unfold internal_error; now eauto].
  destruct (truthy (shortcode data)) eqn:Hts.
  - destruct (shortcode data) as [ | b | z | c | t] eqn:Hs;
      try (simpl; intros H; injection H as <- <-; left; unfold internal_error; now eauto).
    destruct (shortcode_format_ok c) eqn:Hfmt; simpl;
      [| intros H; injection H as <- <-; left; eauto].
    destruct (select_url db c) eqn:Hsel; simpl;
      [intros H; injection H as <- <-; left; eauto|].
    apply (Hst u c exp); auto.
    left. repeat split; auto.
    + intros ->. discriminate.
    + now apply select_url_none.
  - destruct (generate_loop fuel amb db 0) as [c|] eqn:Hg; simpl; [|discriminate].
    apply (Hst u c exp); auto.
    right. auto.
Qed.

(* ------------------------------------------------------------------ *)
(** ** The outcomes of a redirect and of a statistics request *)

Lemma redirect_unknown fuel amb db req code :
  select_url db code = None ->
  handle fuel amb db (GetRedirect code req) = Some (Error 404 "Short URL not found.", db).
Proof. intros H. simpl. unfold redirect_short_url. now rewrite H. Qed.

Lemma redirect_expired fuel amb db req code e :
  select_url db code = Some e ->
  expires_at e < utcnow amb 0 ->
  handle fuel amb db (GetRedirect code req) = Some (Error 410 "Short URL has expired.", db).
Proof.
  intros H Hlt. simpl. unfold redirect_short_url. rewrite H.
  apply Z.ltb_lt in Hlt. now rewrite Hlt.
Qed.

Lemma redirect_recorded fuel amb db req code e :
  select_url db code = Some e ->
  utcnow amb 0 <= expires_at e ->
  storage_fault amb = false ->
  has_char is_line_break (original_url e) = false ->
  handle fuel amb db (GetRedirect code req)
  = Some (Redirect (original_url e), with_click db (click_of amb db req e)).
Proof.
  intros H Hle Hf Hb. simpl. unfold redirect_short_url, redirect. rewrite H.
  apply Z.ltb_ge in Hle. rewrite Hle, Hf, Hb. reflexivity.
Qed.

(** The click is committed before [redirect()] refuses the location. *)
Lemma redirect_refused fuel amb db req code e :
  select_url db code = Some e ->
  utcnow amb 0 <= expires_at e ->
  storage_fault amb = false ->
  has_char is_line_break (original_url e) = true ->
  handle fuel amb db (GetRedirect code req)
  = Some (internal_error, with_click db (click_of amb db req e)).
Proof.
  intros H Hle Hf Hb. simpl. unfold redirect_short_url, redirect. rewrite H.
  apply Z.ltb_ge in Hle. rewrite Hle, Hf, Hb. reflexivity.
Qed.

Lemma redirect_fault fuel amb db req code e :
  select_url db code = Some e ->
  utcnow amb 0 <= expires_at e ->
  storage_fault amb = true ->
  handle fuel amb db (GetRedirect code req) = Some (internal_error, db).
Proof.
  intros H Hle Hf. simpl. unfold redirect_short_url. rewrite H.
  apply Z.ltb_ge in Hle. rewrite Hle, Hf. reflexivity.
Qed.

Lemma redirect_cases fuel amb db req code resp db' :
  handle fuel amb db (GetRedirect code req) = Some (resp, db') ->
  (db' = db /\ exists st msg, resp = Error st msg) \/
  (exists e, select_url db code = Some e /\ utcnow amb 0 <= expires_at e /\
             storage_fault amb = false /\
             ((has_char is_line_break (original_url e) = false
               /\ resp = Redirect (original_url e))
              \/ (has_char is_line_break (original_url e) = true
                  /\ resp = internal_error)) /\
             db' = with_click db (click_of amb db req e)).
Proof.
  destruct (select_url db code) as [e|] eqn:Hs.
  - destruct (Z.lt_ge_cases (expires_at e) (utcnow amb 0)) as [Hlt|Hge].
    + rewrite (redirect_expired _ _ _ _ _ _ Hs Hlt). intros H; injection H as <- <-. eauto.
    + destruct (storage_fault amb) eqn:Hf.
      * rewrite (redirect_fault _ _ _ _ _ _ Hs Hge Hf). intros H; injection H as <- <-.
        unfold internal_error. eauto.
      * destruct (has_char is_line_break (original_url e)) eqn:Hb.
        -- rewrite (redirect_refused _ _ _ _ _ _ Hs Hge Hf Hb). intros H; injection H as <- <-.
           right. exists e. auto 7.
        -- rewrite (redirect_recorded _ _ _ _ _ _ Hs Hge Hf Hb). intros H; injection H as <- <-.
           right. exists e. auto 7.
  - rewrite (redirect_unknown _ _ _ _ _ Hs). intros H; injection H as <- <-. eauto.
Qed.

Lemma stats_found fuel amb db code e :
  select_url db code = Some e ->
  handle fuel amb db (GetStats code) = Some (Stats (stats_of db e), db).
Proof. intros H. simpl. unfold get_short_url_stats. now rewrite H. Qed.

Lemma stats_unchanged fuel amb db code resp db' :
  handle fuel amb db (GetStats code) = Some (resp, db') -> db' = db.
Proof.
  simpl. unfold get_short_url_stats. destruct (select_url db code);
    intros H; injection H as <- <-; reflexivity.
Qed.

(* ------------------------------------------------------------------ *)
(** ** Every request extends the store *)

Lemma handle_extends fuel amb db rq resp db' :
  handle fuel amb db rq = Some (resp, db') ->
  db' = db
  \/ (exists row, ~ In (short_code row) (codes db) /\ id row = urls_seq db + 1 /\
                   db' = with_url db row)
  \/ (exists e row, In e (urls db) /\ url_id row = id e /\ db' = with_click db row).
Proof.
  destruct rq as [data | code | code req]; intros H.
  - apply create_cases in H as [[-> _] | (u & code & exp & _ & _ & _ & _ & Hc & _ & ->)];
      [auto|].
    right. left. exists (new_url db u code (utcnow amb 1) exp). repeat split.
    destruct Hc as [(_ & _ & _ & Hfree) | (_ & Hg)]; [assumption|].
    now apply generate_loop_sound in Hg as (n & _ & _ & Hfree & _).
  - left. eapply stats_unchanged; eassumption.
  - apply redirect_cases in H as [[-> _] | (e & Hs & _ & _ & _ & ->)]; [auto|].
    right. right. exists e, (click_of amb db req e).
    apply select_url_some in Hs as [Hin _]. auto.
Qed.

Lemma select_url_step fuel amb db rq resp db' code e :
  handle fuel amb db rq = Some (resp, db') ->
  select_url db code = Some e -> select_url db' code = Some e.
Proof.
  intros H Hs. apply handle_extends in H as [-> | [(row & _ & _ & ->) | (x & row & _ & _ & ->)]];
    [assumption | | assumption].
  destruct db; simpl in *. unfold with_url; simpl.
  eapply select_url_app; eassumption.
Qed.

Lemma select_url_steps db1 db2 code e :
  steps db1 db2 -> select_url db1 code = Some e -> select_url db2 code = Some e.
Proof.
  induction 1 as [|fuel amb db1 db2 rq resp db3 _ IH H]; intros Hs; [assumption|].
  eapply select_url_step; eauto.
Qed.

Lemma reachable_steps db : reachable db <-> steps (init_db None) db.
Proof.
  split.
  - induction 1 as [|fuel amb db rq resp db' _ IH H]; [constructor|].
    econstructor; eassumption.
  - intros H. remember (init_db None) as d0 eqn:E.
    induction H as [|fuel amb db1 db2 rq resp db3 _ IH H]; subst; [constructor|].
    econstructor; [apply IH; reflexivity | eassumption].
Qed.

(* ------------------------------------------------------------------ *)
(** ** The invariant of the store *)

Lemma NoDup_snoc {A} (l : list A) (x : A) : NoDup l -> ~ In x l -> NoDup (l ++ [x]).
Proof.
  intros Hl Hx. induction Hl as [|y l Hy Hl IH]; simpl.
  - constructor; [intros [] | constructor].
  - constructor.
    + rewrite in_app_iff. simpl. intros [H | [-> | []]]; [contradiction|].
      apply Hx. now left.
    + apply IH. intros H. apply Hx. now right.
Qed.

Lemma well_formed_init : well_formed (init_db None).
Proof.
  split; simpl; try constructor. reflexivity.
Qed.

Lemma well_formed_step fuel amb db rq resp db' :
  well_formed db -> handle fuel amb db rq = Some (resp, db') -> well_formed db'.
Proof.
  intros [Hc Hq Hi Hr] H.
  apply handle_extends in H as [-> | [(row & Hfree & Hid & ->) | (e & row & Hin & Hu & ->)]].
  - split; assumption.
  - split; simpl.
    + unfold codes; simpl. rewrite map_app. simpl. now apply NoDup_snoc.
    + lia.
    + apply Forall_app. split.
      * eapply Forall_impl; [|exact Hi]. simpl. intros r Hr'. lia.
      * constructor; [lia | constructor].
    + eapply Forall_impl; [|exact Hr]. simpl. intros c (r & H1 & H2).
      exists r. rewrite in_app_iff. auto.
  - split; simpl; try assumption.
    apply Forall_app. split; [assumption|]. constructor; [|constructor]. eauto.
Qed.

Lemma reachable_well_formed db : reachable db -> well_formed db.
Proof.
  induction 1 as [|fuel amb db rq resp db' _ IH H].
  - apply well_formed_init.
  - eapply well_formed_step; eassumption.
Qed.

Lemma same_code_same_row db e1 e2 :
  NoDup (codes db) -> In e1 (urls db) -> In e2 (urls db) ->
  short_code e1 = short_code e2 -> e1 = e2.
Proof.
  unfold codes. induction (urls db) as [|r l IH]; simpl; [tauto|].
  intros Hn [<-|H1] [<-|H2] E; inversion Hn as [|? ? Hnot Hl]; subst.
  - reflexivity.
  - exfalso. apply Hnot. rewrite E. now apply in_map.
  - exfalso. apply Hnot. rewrite <- E. now apply in_map.
  - now apply IH.
Qed.

Lemma NoDup_nth_error_codes db i j e1 e2 :
  NoDup (codes db) ->
  nth_error (urls db) i = Some e1 -> nth_error (urls db) j = Some e2 ->
  short_code e1 = short_code e2 -> i = j.
Proof.
  intros Hn H1 H2 E.
  assert (Hi : nth_error (codes db) i = Some (short_code e1))
    by (unfold codes; now rewrite nth_error_map, H1).
  assert (Hj : nth_error (codes db) j = Some (short_code e1))
    by (unfold codes; rewrite nth_error_map, H2; simpl; now rewrite E).
  assert (Hlt : (i < List.length (codes db))%nat)
    by (apply nth_error_Some; congruence).
  eapply NoDup_nth_error; eauto. congruence.
Qed.

End AppFacts.

(* ================================================================== *)
(** * The concrete stores are reachable *)
(* ================================================================== *)

Module ExampleFacts.
Import Text Re Py Utils Database App AppFacts Examples.

Local Open Scope Z_scope.

Lemma page_valid : is_valid_url page = true.
Proof. vm_compute. reflexivity. Qed.

Lemma db_custom_created :
  handle 0 (env t0 false one_uuid) (init_db None) (PostShorturls (post (VInt 5) (VStr "abcd")))
  = Some (Created "http://localhost:5000/abcd" (t0 + 5 * 60000000), db_custom).
Proof. vm_compute. reflexivity. Qed.

Lemma db_auto_created :
  handle 1 (env t0 false one_uuid) (init_db None) (PostShorturls (post VNone VNone))
  = Some (Created "http://localhost:5000/vytxeTZ" (t0 + 30 * 60000000), db_auto).
Proof. vm_compute. reflexivity. Qed.

Lemma db_custom_reachable : reachable db_custom.
Proof. eapply reachable_step; [apply reachable_init | apply db_custom_created]. Qed.

Lemma db_auto_reachable : reachable db_auto.
Proof. eapply reachable_step; [apply reachable_init | apply db_auto_created]. Qed.

Lemma db_custom_lookup : select_url db_custom "abcd" = Some abcd_row.
Proof. reflexivity. Qed.

Lemma db_clicked_recorded :
  handle 0 (env (t0 + 60000000) false one_uuid) db_custom (GetRedirect "abcd" browser)
  = Some (Redirect page, db_clicked).
Proof. vm_compute. reflexivity. Qed.

Lemma db_newline_created :
  handle 0 (env t0 false one_uuid) (init_db None)
         (PostShorturls {| url := VStr localhost_nl; validity := VNone;
                           shortcode := VStr "abcd" |})
  = Some (Created "http://localhost:5000/abcd" (t0 + 30 * 60000000), db_newline).
Proof. vm_compute. reflexivity. Qed.

Lemma db_newline_reachable : reachable db_newline.
Proof. eapply reachable_step; [apply reachable_init | apply db_newline_created]. Qed.

Lemma db_clicked_reachable : reachable db_clicked.
Proof. eapply reachable_step; [apply db_custom_reachable | apply db_clicked_recorded]. Qed.

End ExampleFacts.

(* ================================================================== *)
(** * The regular expression of [is_valid_url] against the grammar *)
(* ================================================================== *)

Module GrammarFacts.
Import Text TextFacts Re ReFacts Utils Grammar.

(** ** Character classes under [re.IGNORECASE] *)

(** Under [re.IGNORECASE] a literal that is not a capital letter matches
    the characters whose lower case it is. *)
Lemma fold_case_literal a c :
  not_upper a = true ->
  fold_case true (Ascii.eqb a) c = Ascii.eqb a (to_lower c).
Proof.
  unfold not_upper, fold_case. intros Ha. apply negb_true_iff in Ha.
  destruct (Ascii.eqb_spec a (to_lower c)) as [E|E]; [reflexivity|]. simpl.
  destruct (Ascii.eqb_spec a (to_upper c)) as [E'|E']; [|reflexivity].
  exfalso. pose proof (to_upper_cases c) as Hu. pose proof (to_lower_cases c) as Hl.
  apply orb_true_iff in Hu as [Hu|Hu].
  - apply Ascii.eqb_eq in Hu. rewrite Hu in E'. subst a.
    rewrite Ha in Hl. simpl in Hl. apply Ascii.eqb_eq in Hl. congruence.
  - rewrite <- E' in Hu. congruence.
Qed.

Ltac by_cases_on_ascii :=
  let c := fresh "c" in
  intros c; apply Bool.eqb_prop; revert c; apply for_all_ascii; vm_compute; reflexivity.

Lemma set_alnum : forall c, fold_case true (set_has alnum) c = alnum_char c.
Proof. by_cases_on_ascii. Qed.

Lemma set_alnum_hyphen : forall c, fold_case true (set_has alnum_hyphen) c = label_char c.
Proof. by_cases_on_ascii. Qed.

Lemma set_letters : forall c, fold_case true (set_has [Range "A" "Z"]) c = is_alpha c.
Proof. by_cases_on_ascii. Qed.

Lemma set_slash_question :
  forall c, fold_case true (set_has [Single "/"; Single "?"]) c
            = (Ascii.eqb c "/" || Ascii.eqb c "?").
Proof. by_cases_on_ascii. Qed.

(* ------------------------------------------------------------------ *)
(** ** Words of the derived forms *)

Lemma lang_cat_iff r s w :
  lang (Cat r s) w <-> exists u v, w = u ++ v /\ lang r u /\ lang s v.
Proof.
  split; [apply lang_cat_inv|]. intros (u & v & -> & Hu & Hv). now constructor.
Qed.

(** [r?] *)
Lemma lang_opt r s : lang (repeat_regex r 0 (Some 1)) s <-> s = "" \/ lang r s.
Proof.
  unfold repeat_regex. simpl. rewrite lang_alt_inv, lang_eps_inv, lang_cat_iff. split.
  - intros [(u & v & -> & Hu & Hv) | ->]; [|auto].
    apply lang_eps_inv in Hv as ->. rewrite append_nil_r. auto.
  - intros [-> | H]; [auto|]. left. exists s, "". rewrite append_nil_r.
    repeat split; [assumption | constructor].
Qed.

Lemma lang_star_flat r s :
  lang (Star r) s <-> exists ws, Forall (lang r) ws /\ s = flat ws.
Proof.
  split.
  - intros H. remember (Star r) as sr eqn:E.
    induction H; try discriminate.
    + exists []. split; [constructor | reflexivity].
    + injection E as ->. destruct (IHlang2 eq_refl) as (ws & Hws & ->).
      exists (u :: ws). split; [now constructor | reflexivity].
  - intros (ws & Hws & ->). induction Hws as [|w ws Hw _ IH]; simpl; now constructor.
Qed.

(** [r+] *)
Lemma lang_plus r s :
  lang (repeat_regex r 1 None) s <->
  exists w ws, lang r w /\ Forall (lang r) ws /\ s = w ++ flat ws.
Proof.
  unfold repeat_regex. simpl. rewrite lang_cat_iff. split.
  - intros (u & v & -> & Hu & Hv). apply lang_star_flat in Hv as (ws & Hws & ->). eauto.
  - intros (w & ws & Hw & Hws & ->). exists w, (flat ws). repeat split; [assumption|].
    apply lang_star_flat. eauto.
Qed.

(** A literal under [re.IGNORECASE]. *)
Lemma lang_lit x : forall s,
  all_chars not_upper x = true ->
  (lang (lit_regex true x) s <-> lower s = x).
Proof.
  induction x as [|a x IH]; intros s Hx; simpl.
  - rewrite lang_eps_inv. destruct s; simpl; split; congruence.
  - unfold all_chars in Hx; simpl in Hx. apply andb_true_iff in Hx as [Ha Hx].
    rewrite lang_cat_iff. split.
    + intros (u & v & -> & Hu & Hv). apply lang_chr_inv in Hu as (c & -> & Hc).
      rewrite (fold_case_literal a c Ha) in Hc. apply Ascii.eqb_eq in Hc.
      apply (IH v Hx) in Hv. simpl. congruence.
    + destruct s as [|c s]; simpl; [discriminate|]. intros E. injection E as E1 E2.
      exists (String c ""), s. repeat split.
      * apply lang_chr_inv. exists c. split; [reflexivity|].
        rewrite (fold_case_literal a c Ha). now apply Ascii.eqb_eq.
      * now apply (IH s Hx).
Qed.

(** A literal without letters. *)
Lemma lang_lit_exact x s :
  all_chars not_upper x = true -> has_char is_alpha x = false ->
  (lang (lit_regex true x) s <-> s = x).
Proof.
  intros H1 H2. rewrite (lang_lit x s H1). split.
  - now apply lower_fixed.
  - intros ->. clear H1. induction x as [|a x IH]; simpl; [reflexivity|].
    unfold has_char in H2; simpl in H2. apply orb_false_iff in H2 as [Ha Hx].
    rewrite (IH Hx). f_equal.
    pose proof (to_lower_cases a) as Hl. unfold is_alpha in Ha.
    apply orb_false_iff in Ha as [_ Ha]. rewrite Ha in Hl. simpl in Hl.
    now apply Ascii.eqb_eq.
Qed.

(* ------------------------------------------------------------------ *)
(** ** The parts of the expression of [is_valid_url] *)

Lemma lang_scheme s :
  lang (compile true url_scheme) s <-> exists sch, scheme sch /\ s = sch ++ "://".
Proof.
  unfold url_scheme, PSeq, POpt. cbn [compile fold_right].
  rewrite lang_cat_iff. split.
  - intros (a & r1 & -> & Ha & H1).
    apply lang_cat_iff in H1 as (b & r2 & -> & Hb & H2).
    apply lang_cat_iff in H2 as (c & d & -> & Hc & Hd).
    apply lang_lit_exact in Hc; [subst c | reflexivity | reflexivity].
    apply lang_eps_inv in Hd as ->.
    apply lang_alt_inv in Ha. rewrite !lang_lit in Ha by reflexivity.
    apply lang_opt in Hb. rewrite lang_lit in Hb by reflexivity.
    exists (a ++ b). split.
    + unfold scheme. rewrite lower_app.
      destruct Ha as [-> | ->]; destruct Hb as [-> | ->]; simpl; auto.
    + now rewrite append_assoc.
  - intros (sch & Hs & ->). unfold scheme in Hs.
    assert (Hn : exists n, (lower (take n sch) = "http" \/ lower (take n sch) = "ftp")
                           /\ (drop n sch = "" \/ lower (drop n sch) = "s")).
    { assert (Hd : forall n x, lower sch = x -> drop n x = "" -> drop n sch = "").
      { intros n x E Hx. apply lower_nil. now rewrite lower_drop, E. }
      assert (Ht : forall n x, lower sch = x -> lower (take n sch) = take n x).
      { intros n x E. now rewrite lower_take, E. }
      assert (Hr : forall n x, lower sch = x -> lower (drop n sch) = drop n x).
      { intros n x E. now rewrite lower_drop, E. }
      simpl in Hs. destruct Hs as [E | [E | [E | [E | []]]]]; symmetry in E.
      - exists 4%nat. rewrite (Ht _ _ E), (Hd 4%nat _ E eq_refl). auto.
      - exists 4%nat. rewrite (Ht _ _ E), (Hr _ _ E). auto.
      - exists 3%nat. rewrite (Ht _ _ E), (Hd 3%nat _ E eq_refl). auto.
      - exists 3%nat. rewrite (Ht _ _ E), (Hr _ _ E). auto. }
    destruct Hn as (n & Ha & Hb).
    exists (take n sch), (drop n sch ++ "://"). split; [|split].
    + now rewrite <- append_assoc, take_drop.
    + apply lang_alt_inv. now rewrite !lang_lit by reflexivity.
    + apply lang_cat_iff. exists (drop n sch), "://". repeat split.
      * apply lang_opt. now rewrite lang_lit by reflexivity.
      * change "://" with ("://" ++ "") at 1. apply lang_cat_iff.
        exists "://", "". repeat split; [|constructor].
        now apply lang_lit_exact.
Qed.

Lemma lang_dot s : lang (lit_regex true ".") s <-> s = ".".
Proof. now apply lang_lit_exact. Qed.

Lemma lang_chr_single p c : lang (Chr p) (String c "") <-> p c = true.
Proof.
  rewrite lang_chr_inv. split.
  - intros (x & E & H). now injection E as ->.
  - eauto.
Qed.

Lemma lang_label s :
  lang (compile true url_label) s <-> exists l, label l /\ s = l ++ ".".
Proof.
  unfold url_label, PSeq, POpt. cbn [compile fold_right].
  rewrite lang_cat_iff. split.
  - intros (u & r1 & -> & Hu & H1).
    apply lang_cat_iff in H1 as (v & r2 & -> & Hv & H2).
    apply lang_cat_iff in H2 as (w & x & -> & Hw & Hx).
    apply lang_dot in Hw as ->. apply lang_eps_inv in Hx as ->.
    apply lang_chr_inv in Hu as (a & -> & Ha). rewrite set_alnum in Ha.
    rewrite lang_opt in Hv. exists (String a "" ++ v). split.
    + destruct Hv as [-> | Hv]; [left; exists a; auto|].
      apply lang_cat_iff in Hv as (m & z' & -> & Hm & Hz).
      apply lang_chr_inv in Hz as (z & -> & Hz). rewrite set_alnum in Hz.
      apply lang_repeat_chr_bounded in Hm as [Hl Hm]; [|lia].
      rewrite (all_chars_ext _ _ m set_alnum_hyphen) in Hm.
      right. exists a, m, z. repeat split; auto; lia.
    + now rewrite append_assoc.
  - intros (l & Hl & ->).
    assert (Hdot : lang (Cat (lit_regex true ".") (lit_regex true "")) ".").
    { change "." with ("." ++ "") at 2. apply lang_cat_iff.
      exists ".", "". repeat split; [now apply lang_dot | constructor]. }
    destruct Hl as [(c & -> & Hc) | (a & m & z & -> & Ha & Hz & Hm & Hlen)].
    + exists (String c ""), ".". repeat split.
      * apply lang_chr_single. now rewrite set_alnum.
      * change "." with ("" ++ ".") at 2. apply lang_cat_iff.
        exists "", ".". repeat split; [|exact Hdot]. apply lang_opt. now left.
    + exists (String a ""), ((m ++ String z "") ++ "."). repeat split.
      * apply lang_chr_single. now rewrite set_alnum.
      * apply lang_cat_iff. exists (m ++ String z ""), ".". repeat split; [|exact Hdot].
        apply lang_opt. right. apply lang_cat_iff. exists m, (String z ""). repeat split.
        -- apply lang_repeat_chr_bounded; [lia|].
           rewrite (all_chars_ext _ _ m set_alnum_hyphen). split; [lia | assumption].
        -- apply lang_chr_single. now rewrite set_alnum.
Qed.

Lemma lang_opt_dot s : lang (repeat_regex (lit_regex true ".") 0 (Some 1)) s <-> s = "" \/ s = ".".
Proof. now rewrite lang_opt, lang_dot. Qed.

Lemma lang_tld s : lang (compile true url_tld) s <-> tld s.
Proof.
  unfold url_tld, POpt, tld. cbn [compile].
  rewrite lang_alt_inv, !lang_cat_iff. split.
  - intros [(t & d & -> & Ht & Hd) | (t & d & -> & Ht & Hd)];
      apply lang_opt_dot in Hd; exists t, d; (split; [reflexivity|]); (split; [assumption|]).
    + apply lang_repeat_chr_bounded in Ht as [Hl Ht]; [|lia].
      rewrite (all_chars_ext _ _ t set_letters) in Ht. auto.
    + apply lang_repeat_chr_unbounded in Ht as [Hl Ht].
      rewrite (all_chars_ext _ _ t set_alnum_hyphen) in Ht. auto.
  - intros (t & d & -> & Hd & [[Hl Ht] | [Hl Ht]]); apply lang_opt_dot in Hd.
    + left. exists t, d. repeat split; [|assumption].
      apply lang_repeat_chr_bounded; [lia|].
      now rewrite (all_chars_ext _ _ t set_letters).
    + right. exists t, d. repeat split; [|assumption].
      apply lang_repeat_chr_unbounded.
      now rewrite (all_chars_ext _ _ t set_alnum_hyphen).
Qed.

Lemma lang_labels ws :
  Forall (lang (compile true url_label)) ws ->
  exists ls, Forall label ls /\ flat ws = dotted ls /\ List.length ls = List.length ws.
Proof.
  induction 1 as [|w ws Hw _ (ls & Hls & E & Hlen)].
  - exists []. repeat split. constructor.
  - apply lang_label in Hw as (l & Hl & ->). exists (l :: ls). simpl.
    rewrite E, append_assoc, Hlen. repeat split. now constructor.
Qed.

Lemma labels_lang ls :
  Forall label ls ->
  exists ws, Forall (lang (compile true url_label)) ws /\ flat ws = dotted ls
             /\ List.length ws = List.length ls.
Proof.
  induction 1 as [|l ls Hl _ (ws & Hws & E & Hlen)].
  - exists []. repeat split. constructor.
  - exists ((l ++ ".") :: ws). simpl. rewrite E, append_assoc, Hlen. repeat split.
    constructor; [|assumption]. apply lang_label. eauto.
Qed.

Lemma lang_domain s : lang (compile true url_domain) s <-> domain s.
Proof.
  unfold url_domain, PPlus, domain. cbn [compile]. rewrite lang_cat_iff. split.
  - intros (u & t & -> & Hu & Ht). apply lang_tld in Ht.
    apply lang_plus in Hu as (w & ws & Hw & Hws & ->).
    destruct (lang_labels (w :: ws)) as (ls & Hls & E & Hlen); [now constructor|].
    exists ls, t. simpl in E. rewrite E. repeat split; auto.
    intros ->. discriminate.
  - intros (ls & t & Hne & Hls & Ht & ->).
    destruct (labels_lang ls Hls) as (ws & Hws & E & Hlen).
    exists (dotted ls), t. repeat split; [|now apply lang_tld].
    destruct ws as [|w ws]; [destruct ls; [congruence | discriminate]|].
    apply lang_plus. inversion Hws; subst. exists w, ws. rewrite <- E. auto.
Qed.

Lemma lang_octet s : lang (repeat_regex (Chr is_digit) 1 (Some 3)) s <-> octet s.
Proof. unfold octet. apply lang_repeat_chr_bounded. lia. Qed.

Lemma lang_ip s : lang (compile true url_ip) s <-> ipv4 s.
Proof.
  unfold url_ip, PSeq, ipv4. cbn [compile fold_right]. split.
  - intros H.
    apply lang_cat_iff in H as (a & r1 & -> & Ha & H).
    apply lang_cat_iff in H as (d1 & r2 & -> & Hd1 & H).
    apply lang_cat_iff in H as (b & r3 & -> & Hb & H).
    apply lang_cat_iff in H as (d2 & r4 & -> & Hd2 & H).
    apply lang_cat_iff in H as (c & r5 & -> & Hc & H).
    apply lang_cat_iff in H as (d3 & r6 & -> & Hd3 & H).
    apply lang_cat_iff in H as (d & r7 & -> & Hd & H).
    apply lang_eps_inv in H as ->.
    apply lang_dot in Hd1 as ->. apply lang_dot in Hd2 as ->. apply lang_dot in Hd3 as ->.
    exists a, b, c, d. rewrite append_nil_r. repeat split; now apply lang_octet.
  - intros (a & b & c & d & Ha & Hb & Hc & Hd & ->).
    repeat (apply lang_cat_iff; eexists; eexists; split; [reflexivity|]; split;
            [first [apply lang_octet; eassumption | now apply lang_dot]|]).
    rewrite <- (append_nil_r d). apply lang_cat_iff. exists d, "".
    repeat split; [now apply lang_octet | constructor].
Qed.

Lemma lang_host s : lang (compile true url_host) s <-> host s.
Proof.
  unfold url_host, host. cbn [compile].
  now rewrite !lang_alt_inv, lang_domain, lang_ip, lang_lit by reflexivity.
Qed.

Lemma lang_port s : lang (compile true url_port) s <-> port s.
Proof.
  unfold url_port, POpt, PPlus, port. cbn [compile].
  rewrite lang_opt, lang_cat_iff. split.
  - intros [-> | (c & ds & -> & Hc & Hds)]; [auto|]. right.
    apply lang_lit_exact in Hc; [subst c | reflexivity | reflexivity].
    apply lang_repeat_chr_unbounded in Hds. exists ds. tauto.
  - intros [-> | (ds & -> & Hl & Hd)]; [auto|]. right. exists ":", ds. repeat split.
    + now apply lang_lit_exact.
    + now apply lang_repeat_chr_unbounded.
Qed.

Lemma lang_tail s : lang (compile true url_tail) s <-> path_query s.
Proof.
  unfold url_tail, POpt, PPlus, path_query. cbn [compile].
  rewrite lang_alt_inv, lang_opt, lang_cat_iff, lang_lit_exact by reflexivity. split.
  - intros [[-> | ->] | (u & rest & -> & Hu & Hr)]; [auto | auto |].
    right. right. apply lang_chr_inv in Hu as (c & -> & Hc).
    rewrite set_slash_question in Hc. apply lang_repeat_chr_unbounded in Hr as [Hl Hr].
    exists c, rest. repeat split; auto.
    apply orb_true_iff in Hc as [Hc|Hc]; apply Ascii.eqb_eq in Hc; auto.
  - intros [-> | [-> | (c & rest & -> & Hc & Hl & Hr)]]; [auto | auto |].
    right. exists (String c ""), rest. repeat split.
    + apply lang_chr_single. rewrite set_slash_question.
      destruct Hc as [-> | ->]; reflexivity.
    + now apply lang_repeat_chr_unbounded.
Qed.

(** The expression between [^] and [$] describes the grammar. *)
Lemma lang_url_pattern s : lang (compile true url_pattern) s <-> absolute_url s.
Proof.
  unfold url_pattern, PSeq, absolute_url. cbn [compile fold_right]. split.
  - intros H.
    apply lang_cat_iff in H as (a & r1 & -> & Ha & H).
    apply lang_cat_iff in H as (h & r2 & -> & Hh & H).
    apply lang_cat_iff in H as (p & r3 & -> & Hp & H).
    apply lang_cat_iff in H as (t & e & -> & Ht & H).
    apply lang_eps_inv in H as ->.
    apply lang_scheme in Ha as (sch & Hs & ->).
    exists sch, h, p, t. rewrite append_nil_r, append_assoc.
    repeat split; [assumption | now apply lang_host | now apply lang_port | now apply lang_tail].
  - intros (sch & h & p & t & -> & Hs & Hh & Hp & Ht).
    apply lang_cat_iff. exists (sch ++ "://"), (h ++ p ++ t).
    split; [now rewrite append_assoc|]. split; [apply lang_scheme; eauto|].
    apply lang_cat_iff. exists h, (p ++ t). repeat split; [now apply lang_host|].
    apply lang_cat_iff. exists p, t. repeat split; [now apply lang_port|].
    rewrite <- (append_nil_r t). apply lang_cat_iff. exists t, "".
    repeat split; [now apply lang_tail | constructor].
Qed.

(** On the strings of the embedding (code points up to U+00FF),
    [is_valid_url] returns [True] exactly on the absolute URLs of the
    grammar and on those followed by one newline. *)
Theorem is_valid_url_iff s :
  is_valid_url s = true <->
  absolute_url s \/ exists s', s = s' ++ String newline "" /\ absolute_url s'.
Proof.
  unfold is_valid_url, re_match_anchored. rewrite match_dollar_spec.
  split; (intros [H | (s' & E & H)]; [left | right; exists s'; split; [assumption|]]);
    now apply lang_url_pattern.
Qed.

End GrammarFacts.

(* ================================================================== *)
(** * Properties of the service *)
(* ================================================================== *)

Module Properties.
Import Text TextFacts Re ReFacts Py Utils Database App AppFacts Spec GrammarFacts.

Local Open Scope Z_scope.

(* ------------------------------------------------------------------ *)
(** ** Uniqueness of short codes *)

(** C1. In every store the service can reach there is at most one entry
    per short code: the codes of [urls] are pairwise distinct, two entries
    with the same code are the same entry (and sit at the same position),
    every request keeps it so, and a creation without a custom code stores
    a code that no earlier entry has. *)
Theorem one_entry_per_short_code (db : database) :
  reachable db ->
  NoDup (codes db)
  /\ (forall e1 e2, In e1 (urls db) -> In e2 (urls db) ->
                    short_code e1 = short_code e2 -> e1 = e2)
  /\ (forall i j e1 e2, nth_error (urls db) i = Some e1 -> nth_error (urls db) j = Some e2 ->
                        short_code e1 = short_code e2 -> i = j)
  /\ (forall fuel amb rq resp db',
         handle fuel amb db rq = Some (resp, db') -> NoDup (codes db'))
  /\ (forall fuel amb data link exp db',
         truthy (shortcode data) = false ->
         handle fuel amb db (PostShorturls data) = Some (Created link exp, db') ->
         exists row, urls db' = (urls db ++ [row])%list
                     /\ link = short_link amb (short_code row)
                     /\ ~ In (short_code row) (codes db)).
Proof.
  intros Hr. pose proof (reachable_well_formed db Hr) as Hwf.
  destruct Hwf as [Hc Hq Hi Hrf].
  split; [assumption|]. split; [|split; [|split]].
  - intros e1 e2. now apply same_code_same_row.
  - intros i j e1 e2. now apply NoDup_nth_error_codes.
  - intros fuel amb rq resp db' H.
    apply (wf_codes db'). eapply well_formed_step; [|eassumption]. now split.
  - intros fuel amb data link exp db' Hs H.
    apply create_cases in H as [[_ (st & msg & E)] | (u & code & e & _ & _ & _ & _ & Hcc & E & ->)];
      [discriminate|].
    injection E as -> ->.
    exists (new_url db u code (utcnow amb 1) e). simpl. repeat split.
    destruct Hcc as [(Hs' & _ & Hne & _) | (_ & Hg)].
    + rewrite Hs' in Hs. simpl in Hs. destruct code; [congruence | discriminate].
    + now apply generate_loop_sound in Hg as (n & _ & _ & Hfree & _).
Qed.

Lemma one_entry_per_short_code_witness :
  reachable Examples.db_auto /\ NoDup (codes Examples.db_auto).
Proof.
  split; [exact ExampleFacts.db_auto_reachable|].
  exact (proj1 (one_entry_per_short_code Examples.db_auto ExampleFacts.db_auto_reachable)).
Defined.

(* ------------------------------------------------------------------ *)
(** ** Expiry *)

Lemma calculate_expiry_ok now minutes exp :
  calculate_expiry now minutes = Ok exp -> exp = now + minutes * 60000000.
Proof.
  unfold calculate_expiry, timedelta_minutes, datetime_add, bind.
  destruct (Z.abs _ <=? _); [|discriminate].
  destruct (_ && _); [|discriminate].
  intros H. now injection H.
Qed.

(** The handler reads the clock once for the expiry and once more for the
    creation time; 1.5 ms apart, the two stored times are not [validity]
    minutes apart. *)
Lemma expiry_is_creation_plus_validity_fails : ~ expiry_is_creation_plus_validity.
Proof.
  intros H.
  specialize (H 0%nat (Examples.env Examples.t0 false Examples.one_uuid) (init_db None)
                (Examples.post (VInt 5) (VStr "abcd")) 5 _ _ _ Examples.abcd_row
                ExampleFacts.db_custom_created eq_refl eq_refl eq_refl).
  vm_compute in H. discriminate.
Qed.

(** C2, as the code has it.  For every successful creation the stored
    [expires_at] is the clock reading taken by [calculate_expiry] plus the
    minutes of the request, and [created_at] is a second, later reading;
    the two differ by exactly the minutes when both readings coincide.
    The minutes are [validity] when it is an integer above 0, and 30 when it
    is an integer that is not, or is missing. *)
Theorem expiry_from_first_clock_reading fuel amb db data link exp db' :
  handle fuel amb db (PostShorturls data) = Some (Created link exp, db') ->
  exists row minutes,
    urls db' = (urls db ++ [row])%list
    /\ created_at row = utcnow amb 1
    /\ expires_at row = utcnow amb 0 + minutes * 60000000
    /\ exp = expires_at row
    /\ (forall z, validity data = VInt z -> 0 < z -> minutes = z)
    /\ (forall z, validity data = VInt z -> z <= 0 -> minutes = 30)
    /\ (validity data = VNone -> minutes = 30)
    /\ (utcnow amb 1 = utcnow amb 0 ->
        expires_at row = created_at row + minutes * 60000000).
Proof.
  intros H.
  apply create_cases in H as [[_ (st & msg & E)] | (u & code & e & _ & _ & He & _ & _ & E & ->)];
    [discriminate|].
  injection E as -> <-. apply calculate_expiry_ok in He.
  exists (new_url db u code (utcnow amb 1) exp), (expiry_minutes (validity data)).
  simpl. repeat split; try assumption.
  - intros z -> Hz. simpl. apply Z.ltb_lt in Hz. now rewrite Hz.
  - intros z -> Hz. simpl. apply Z.ltb_ge in Hz. now rewrite Hz.
  - intros ->. reflexivity.
  - intros ->. assumption.
Qed.

Lemma expiry_from_first_clock_reading_witness :
  exists row minutes,
    urls Examples.db_custom = (urls (init_db None) ++ [row])%list
    /\ created_at row = Examples.t0 + 1500
    /\ expires_at row = Examples.t0 + minutes * 60000000
    /\ minutes = 5.
Proof.
  destruct (expiry_from_first_clock_reading _ _ _ _ _ _ _ ExampleFacts.db_custom_created)
    as (row & minutes & H1 & H2 & H3 & _ & H5 & _).
  exists row, minutes. repeat split; try assumption.
  apply (H5 5); [reflexivity | lia].
Defined.

(* ------------------------------------------------------------------ *)
(** ** Redirects *)

(** C3, on the code.  ["http://localhost"] followed by a newline passes
    [is_valid_url] and is stored by a creation; its entry is found and has
    not expired, and the INSERT into [clicks] succeeds.  The redirect does
    not return the [original_url]: [redirect()] refuses a location with a
    newline, the [ValueError] leaves the view after the click has been
    committed, and the answer is the 500 of the error handler. *)
Theorem redirect_of_live_entry_can_answer_500 :
  let amb := Examples.env (Examples.t0 + 60000000) false Examples.one_uuid in
  reachable Examples.db_newline
  /\ select_url Examples.db_newline "abcd" = Some Examples.newline_row
  /\ utcnow amb 0 <= expires_at Examples.newline_row
  /\ storage_fault amb = false
  /\ redirect_short_url amb Examples.db_newline Examples.browser "abcd"
     = (Raise ValueError,
        with_click Examples.db_newline
                   (click_of amb Examples.db_newline Examples.browser Examples.newline_row))
  /\ handle 0 amb Examples.db_newline (GetRedirect "abcd" Examples.browser)
     = Some (Error 500 "Internal Server Error",
             with_click Examples.db_newline
                        (click_of amb Examples.db_newline Examples.browser
                                  Examples.newline_row)).
Proof.
  cbv zeta. split; [exact ExampleFacts.db_newline_reachable|].
  repeat split. vm_compute. discriminate.
Qed.

(** C4, on the code.  The entry of ["abcd"] is found and has not expired,
    and the INSERT into [clicks] raises: the [except sqlite3.Error] clause
    names a module that [app.py] does not import, the [NameError] leaves the
    view, and the answer is the 500 of the error handler, not the
    redirect. *)
Theorem redirect_with_failing_click_insert_is_500 :
  let amb := Examples.env (Examples.t0 + 60000000) true Examples.one_uuid in
  select_url Examples.db_custom "abcd" = Some Examples.abcd_row
  /\ utcnow amb 0 <= expires_at Examples.abcd_row
  /\ name_bound "sqlite3" = false
  /\ redirect_short_url amb Examples.db_custom Examples.browser "abcd"
     = (Raise (NameError "sqlite3"), Examples.db_custom)
  /\ handle 0 amb Examples.db_custom (GetRedirect "abcd" Examples.browser)
     = Some (Error 500 "Internal Server Error", Examples.db_custom).
Proof.
  cbv zeta. repeat split. vm_compute. discriminate.
Qed.

(* ------------------------------------------------------------------ *)
(** ** Custom codes *)

Lemma conflict_on_taken_code fuel amb db data u exp code e :
  url data = VStr u ->
  is_valid_url u = true ->
  calculate_expiry (utcnow amb 0) (expiry_minutes (validity data)) = Ok exp ->
  shortcode data = VStr code ->
  shortcode_format_ok code = true ->
  select_url db code = Some e ->
  handle fuel amb db (PostShorturls data)
  = Some (Error 409 "Custom shortcode already in use. Please choose another or omit to auto-generate.", db).
Proof.
  intros Hu Hv He Hc Hfmt Hs. simpl. unfold create_short_url.
  rewrite Hu, Hv, He, Hc. destruct u as [|a u]; [discriminate|].
  destruct code as [|b code]; [discriminate|]. simpl.
  rewrite Hfmt, Hs. reflexivity.
Qed.

Lemma select_url_new db row :
  ~ In (short_code row) (codes db) ->
  select_url (with_url db row) (short_code row) = Some row.
Proof.
  unfold select_url, codes, with_url; simpl.
  induction (urls db) as [|r l IH]; simpl; intros H.
  - now rewrite String.eqb_refl.
  - destruct (String.eqb_spec (short_code r) (short_code row)) as [E|E].
    + exfalso. apply H. now left.
    + apply IH. intros Hin. apply H. now right.
Qed.

(** C5. A custom code of the format [^[A-Za-z0-9_-]{4,20}$] that no entry
    has: the creation (of a valid URL, with a representable expiry, the
    table accepting the row) answers 201 and appends an entry with exactly
    that code; after it, and after any further requests, a creation with
    the same code answers 409 and leaves the store as it is. *)
Theorem custom_code_created_then_conflict fuel amb db data u exp code :
  url data = VStr u ->
  is_valid_url u = true ->
  calculate_expiry (utcnow amb 0) (expiry_minutes (validity data)) = Ok exp ->
  storage_fault amb = false ->
  shortcode data = VStr code ->
  validateCustomCode code = true ->
  ~ In code (codes db) ->
  exists row db1,
    handle fuel amb db (PostShorturls data) = Some (Created (short_link amb code) exp, db1)
    /\ urls db1 = (urls db ++ [row])%list
    /\ short_code row = code
    /\ original_url row = u
    /\ forall db2 fuel' amb' data' u' exp',
         steps db1 db2 ->
         url data' = VStr u' ->
         is_valid_url u' = true ->
         calculate_expiry (utcnow amb' 0) (expiry_minutes (validity data')) = Ok exp' ->
         shortcode data' = VStr code ->
         exists msg, handle fuel' amb' db2 (PostShorturls data') = Some (Error 409 msg, db2).
Proof.
  intros Hu Hv He Hf Hc Hwf Hfree.
  assert (Hfmt : shortcode_format_ok code = true)
    by (apply shortcode_format_ok_iff; now left).
  assert (Hne : code <> "") by (intros ->; discriminate).
  set (row := new_url db u code (utcnow amb 1) exp).
  exists row, (with_url db row). split; [|repeat split].
  - apply create_success; auto. left. auto.
  - intros db2 fuel' amb' data' u' exp' Hsteps Hu' Hv' He' Hc'.
    eexists. eapply conflict_on_taken_code; eauto.
    eapply select_url_steps; [eassumption|].
    apply (select_url_new db row). assumption.
Qed.

Lemma custom_code_created_then_conflict_witness :
  exists row db1,
    handle 0 (Examples.env Examples.t0 false Examples.one_uuid) (init_db None)
           (PostShorturls (Examples.post (VInt 5) (VStr "abcd")))
    = Some (Created "http://localhost:5000/abcd" (Examples.t0 + 300000000), db1)
    /\ urls db1 = [row]
    /\ short_code row = "abcd"
    /\ exists msg,
         handle 0 (Examples.env (Examples.t0 + 1) false Examples.one_uuid) db1
                (PostShorturls (Examples.post VNone (VStr "abcd")))
         = Some (Error 409 msg, db1).
Proof.
  destruct (custom_code_created_then_conflict
              0 (Examples.env Examples.t0 false Examples.one_uuid) (init_db None)
              (Examples.post (VInt 5) (VStr "abcd")) Examples.page
              (Examples.t0 + 300000000) "abcd"
              eq_refl ExampleFacts.page_valid eq_refl eq_refl eq_refl eq_refl
              (fun H : In "abcd" (codes (init_db None)) => H))
    as (row & db1 & H1 & H2 & H3 & _ & H5).
  exists row, db1. repeat split; try assumption.
  apply (H5 db1 0%nat (Examples.env (Examples.t0 + 1) false Examples.one_uuid)
            (Examples.post VNone (VStr "abcd")) Examples.page
            (Examples.t0 + 1 + 30 * 60000000) (steps_refl db1)
            eq_refl ExampleFacts.page_valid eq_refl eq_refl).
Defined.

(* ------------------------------------------------------------------ *)
(** ** Statistics *)

Lemma no_click_for_next_id db row :
  well_formed db -> select_clicks (with_url db row) (urls_seq db + 1) = [].
Proof.
  intros [_ _ Hi Hr]. unfold select_clicks, with_url; simpl.
  induction (clicks db) as [|c l IH]; simpl; [reflexivity|].
  inversion Hr as [|? ? (r & Hin & Hid) Hl]; subst.
  rewrite Forall_forall in Hi. specialize (Hi r Hin).
  destruct (Z.eqb_spec (url_id c) (urls_seq db + 1)) as [E|E]; [lia|].
  now apply IH.
Qed.

(** C6. Round trip.  From a reachable store, the creation of a valid URL
    (with a representable expiry, the table accepting the row, and a code
    that is a free custom code or the one the generator loop ends with)
    answers 201 with the link of that code, and the statistics of that code
    asked in the resulting store hold the submitted URL, letter for letter,
    zero clicks and no click detail. *)
Theorem create_then_stats fuel amb db data u exp code :
  reachable db ->
  url data = VStr u ->
  is_valid_url u = true ->
  calculate_expiry (utcnow amb 0) (expiry_minutes (validity data)) = Ok exp ->
  storage_fault amb = false ->
  chosen_code fuel amb db data code ->
  exists db',
    handle fuel amb db (PostShorturls data) = Some (Created (short_link amb code) exp, db')
    /\ forall fuel' amb', exists view,
         handle fuel' amb' db' (GetStats code) = Some (Stats view, db')
         /\ originalUrl view = u
         /\ totalClicks view = 0%nat
         /\ clickDetails view = [].
Proof.
  intros Hr Hu Hv He Hf Hc.
  set (row := new_url db u code (utcnow amb 1) exp).
  exists (with_url db row). split; [now apply create_success|].
  intros fuel' amb'.
  assert (Hfree : ~ In (short_code row) (codes db)).
  { simpl. destruct Hc as [(_ & _ & _ & H) | (_ & Hg)]; [assumption|].
    now apply generate_loop_sound in Hg as (n & _ & _ & H & _). }
  exists (stats_of (with_url db row) row). split.
  - apply stats_found. apply (select_url_new db row Hfree).
  - unfold stats_of. simpl.
    rewrite (no_click_for_next_id db row (reachable_well_formed db Hr)). auto.
Qed.

Lemma create_then_stats_witness :
  exists db',
    handle 1 (Examples.env Examples.t0 false Examples.one_uuid) (init_db None)
           (PostShorturls (Examples.post VNone VNone))
    = Some (Created "http://localhost:5000/vytxeTZ" (Examples.t0 + 30 * 60000000), db')
    /\ exists view,
         handle 0 (Examples.env (Examples.t0 + 2000) false Examples.one_uuid) db'
                (GetStats "vytxeTZ")
         = Some (Stats view, db')
         /\ originalUrl view = Examples.page /\ totalClicks view = 0%nat.
Proof.
  destruct (create_then_stats
              1 (Examples.env Examples.t0 false Examples.one_uuid) (init_db None)
              (Examples.post VNone VNone) Examples.page
              (Examples.t0 + 30 * 60000000) "vytxeTZ"
              reachable_init eq_refl ExampleFacts.page_valid eq_refl eq_refl
              (or_intror (conj eq_refl eq_refl)))
    as (db' & H1 & H2).
  exists db'. split; [exact H1|].
  destruct (H2 0%nat (Examples.env (Examples.t0 + 2000) false Examples.one_uuid))
    as (view & H3 & H4 & H5 & _).
  exists view. auto.
Defined.

Lemma select_clicks_with_click db row uid :
  select_clicks (with_click db row) uid
  = (select_clicks db uid ++ if url_id row =? uid then [row] else [])%list.
Proof.
  unfold select_clicks, with_click; simpl. rewrite filter_app. reflexivity.
Qed.

Lemma redirect_store amb db req code e :
  select_url db code = Some e ->
  utcnow amb 0 <= expires_at e ->
  storage_fault amb = false ->
  snd (dispatch (redirect_short_url amb db req code))
  = with_click db (click_of amb db req e).
Proof.
  intros Hs Hle Hf.
  destruct (has_char is_line_break (original_url e)) eqn:Hb.
  - pose proof (redirect_refused 0 amb db req code e Hs Hle Hf Hb) as H.
    simpl in H. injection H as H. now rewrite H.
  - pose proof (redirect_recorded 0 amb db req code e Hs Hle Hf Hb) as H.
    simpl in H. injection H as H. now rewrite H.
Qed.

Lemma details_after_redirects code e : forall rs db,
  select_url db code = Some e ->
  Forall (fun r => utcnow (fst r) 0 <= expires_at e /\ storage_fault (fst r) = false) rs ->
  select_url (serve_redirects db code rs) code = Some e
  /\ map click_view (select_clicks (serve_redirects db code rs) (id e))
     = (map click_view (select_clicks db (id e))
        ++ map (fun r => {| d_timestamp := utcnow (fst r) 1;
                            d_referrer := referrer_or_direct (http_referrer (snd r));
                            d_ipAddress := get_client_ip (snd r);
                            d_location := get_geolocation (get_client_ip (snd r)) |})
               rs)%list.
Proof.
  induction rs as [|[amb req] rs IH]; intros db Hs Hall; simpl.
  - split; [assumption | now rewrite app_nil_r].
  - inversion Hall as [|? ? [Hle Hf] Hrest]; subst. simpl in Hle, Hf.
    rewrite (redirect_store amb db req code e Hs Hle Hf).
    destruct (IH (with_click db (click_of amb db req e))) as [H1 H2]; [|assumption|].
    + exact Hs.
    + split; [exact H1|]. rewrite H2, select_clicks_with_click. simpl.
      rewrite Z.eqb_refl, map_app, <- app_assoc. simpl. do 2 f_equal.
      unfold click_view, click_of, new_click; simpl.
      destruct (get_geolocation (get_client_ip req)); reflexivity.
Qed.

(** C7. The statistics of a code that has an entry list the clicks
    recorded for it.  [totalClicks] is their number [N] and [clickDetails]
    has [N] items; the i-th item holds the timestamp, the referrer, the
    address and the location of the i-th click row of the entry.  The
    order is the order of recording: after [n] further redirects of the
    code that record their click, served one after the other, the list is
    the former list followed by one item per redirect, in the order of the
    requests, each with the time, the referrer, the address and the
    location of its own request, and [totalClicks] has grown by [n]; a
    redirect of an entry with another id leaves the list as it is. *)
Theorem stats_list_recorded_clicks fuel amb db code e :
  select_url db code = Some e ->
  exists view,
    handle fuel amb db (GetStats code) = Some (Stats view, db)
    /\ totalClicks view = List.length (select_clicks db (id e))
    /\ List.length (clickDetails view) = List.length (select_clicks db (id e))
    /\ Forall2 (fun d c =>
                  d_timestamp d = timestamp c
                  /\ d_referrer d = referrer c
                  /\ d_ipAddress d = ip_address c
                  /\ Utils.country (d_location d) = Database.country c
                  /\ Utils.region (d_location d) = Database.region c
                  /\ Utils.city (d_location d) = Database.city c)
               (clickDetails view) (select_clicks db (id e))
    /\ (forall rs,
          Forall (fun r => utcnow (fst r) 0 <= expires_at e
                           /\ storage_fault (fst r) = false) rs ->
          exists view',
            handle fuel amb (serve_redirects db code rs) (GetStats code)
            = Some (Stats view', serve_redirects db code rs)
            /\ totalClicks view' = (totalClicks view + List.length rs)%nat
            /\ clickDetails view'
               = (clickDetails view
                  ++ map (fun r =>
                            {| d_timestamp := utcnow (fst r) 1;
                               d_referrer := referrer_or_direct (http_referrer (snd r));
                               d_ipAddress := get_client_ip (snd r);
                               d_location := get_geolocation (get_client_ip (snd r)) |})
                         rs)%list)
    /\ (forall fuel1 amb1 req code2 e2 resp db1,
          select_url db code2 = Some e2 -> id e2 <> id e ->
          handle fuel1 amb1 db (GetRedirect code2 req) = Some (resp, db1) ->
          select_clicks db1 (id e) = select_clicks db (id e)).
Proof.
  intros Hs. exists (stats_of db e). split; [now apply stats_found|].
  unfold stats_of; cbn [totalClicks clickDetails]. rewrite length_map.
  split; [reflexivity|]. split; [reflexivity|]. split; [|split].
  - induction (select_clicks db (id e)) as [|c l IH]; simpl; constructor; auto.
    unfold click_view; simpl. repeat split.
  - intros rs Hall.
    destruct (details_after_redirects code e rs db Hs Hall) as [Hs' Hd].
    exists (stats_of (serve_redirects db code rs) e).
    split; [now apply stats_found|].
    unfold stats_of; cbn [totalClicks clickDetails]. split; [|exact Hd].
    rewrite <- (length_map click_view), Hd, length_app, !length_map. reflexivity.
  - intros fuel1 amb1 req code2 e2 resp db1 Hs2 Hne H.
    apply redirect_cases in H as [[-> _] | (e' & Hs' & _ & _ & _ & ->)]; [reflexivity|].
    assert (e' = e2) by congruence. subst e'.
    rewrite select_clicks_with_click. simpl.
    destruct (Z.eqb_spec (id e2) (id e)); [contradiction|]. apply app_nil_r.
Qed.

Lemma stats_list_recorded_clicks_witness :
  let first := Examples.env (Examples.t0 + 60000000) false Examples.one_uuid in
  let second := Examples.env (Examples.t0 + 120000000) false Examples.one_uuid in
  let db2 := serve_redirects Examples.db_custom "abcd"
               [(first, Examples.browser); (second, Examples.visitor)] in
  exists view',
    handle 0 first db2 (GetStats "abcd") = Some (Stats view', db2)
    /\ totalClicks view' = 2%nat
    /\ clickDetails view'
       = [ {| d_timestamp := Examples.t0 + 60000000 + 1500;
              d_referrer := "Direct";
              d_ipAddress := Some "127.0.0.1";
              d_location := {| Utils.country := "India";
                               Utils.region := "Andhra Pradesh";
                               Utils.city := "Kadapa" |} |};
           {| d_timestamp := Examples.t0 + 120000000 + 1500;
              d_referrer := "https://example.org/";
              d_ipAddress := Some "203.0.113.7";
              d_location := {| Utils.country := "India";
                               Utils.region := "Andhra Pradesh";
                               Utils.city := "Kadapa" |} |} ].
Proof.
  cbv zeta.
  destruct (stats_list_recorded_clicks
              0 (Examples.env (Examples.t0 + 60000000) false Examples.one_uuid)
              Examples.db_custom "abcd" Examples.abcd_row ExampleFacts.db_custom_lookup)
    as (view & _ & H2 & H3 & _ & H5 & _).
  destruct (H5 [(Examples.env (Examples.t0 + 60000000) false Examples.one_uuid,
                 Examples.browser);
                (Examples.env (Examples.t0 + 120000000) false Examples.one_uuid,
                 Examples.visitor)])
    as (view' & H6 & H7 & H8).
  - repeat constructor; simpl; vm_compute; discriminate.
  - exists view'. split; [exact H6|].
    assert (Hnil : clickDetails view = []).
    { destruct (clickDetails view); [reflexivity | discriminate H3]. }
    rewrite Hnil in H8. rewrite H2 in H7. split; [exact H7 | exact H8].
Defined.

(* ------------------------------------------------------------------ *)
(** ** The retry loop of the generator *)

(** With ["vytxeTZ"] stored and a generator that keeps returning it, no
    number of iterations ends the loop. *)
Lemma retry_loop_always_ends_fails : ~ retry_loop_always_ends.
Proof.
  intros H.
  destruct (H (Examples.env Examples.t0 false Examples.one_uuid) Examples.db_auto)
    as (fuel & code & E).
  rewrite generate_loop_starved in E; [discriminate|].
  intros j. simpl. left. reflexivity.
Qed.

(** C9, as the code has it.  The loop [while True] has no bound of its
    own.  It handles any number [n] of collisions: when the first [n]
    candidates are stored codes and the next one is not, it ends after
    [n + 1] iterations with that candidate; whenever it ends, the result is
    a candidate that is not in the store, all earlier candidates being
    stored codes; and it does not end when every candidate is a stored
    code. *)
Theorem retry_loop_ends_at_first_unused_code amb db :
  (forall n,
      (forall j, (j < n)%nat -> In (candidate amb j) (codes db)) ->
      ~ In (candidate amb n) (codes db) ->
      forall fuel, (n < fuel)%nat -> generate_loop fuel amb db 0 = Some (candidate amb n))
  /\ (forall fuel code,
         generate_loop fuel amb db 0 = Some code ->
         ~ In code (codes db)
         /\ exists n, (n < fuel)%nat /\ code = candidate amb n
                      /\ forall j, (j < n)%nat -> In (candidate amb j) (codes db))
  /\ ((forall j, In (candidate amb j) (codes db)) ->
      forall fuel, generate_loop fuel amb db 0 = None).
Proof.
  split; [|split].
  - intros n Hcol Hfree fuel Hfuel.
    apply (generate_loop_complete amb db n fuel 0%nat); assumption.
  - intros fuel code H.
    apply generate_loop_sound in H as (n & Hn & -> & Hfree & Hcol).
    split; [assumption|]. exists n. auto.
  - intros Hall fuel. apply generate_loop_starved. exact Hall.
Qed.

Lemma retry_loop_ends_at_first_unused_code_witness :
  generate_loop 3 (Examples.env Examples.t0 false Examples.third_uuid) Examples.db_auto 0
  = Some "3kTMd9x".
Proof.
  apply (proj1 (retry_loop_ends_at_first_unused_code
                  (Examples.env Examples.t0 false Examples.third_uuid) Examples.db_auto)
               2%nat).
  - intros j Hj. destruct j as [|[|j]]; [left; reflexivity | left; reflexivity | lia].
  - simpl. intros [H | []]. discriminate.
  - lia.
Defined.

(* ------------------------------------------------------------------ *)
(** ** URL validation *)

(** C8, on the code.  [is_valid_url] is a function of its argument alone
    and rejects the empty string, but it is not the grammar: a URL of the
    grammar followed by one newline is accepted, because [$] also holds
    just before a final newline.  ["http://localhost"] followed by a
    newline is not an absolute URL and [is_valid_url] returns [True] on
    it. *)
Theorem is_valid_url_accepts_final_newline :
  is_valid_url ("http://localhost" ++ String newline "") = true
  /\ ~ Grammar.absolute_url ("http://localhost" ++ String newline "")
  /\ Grammar.absolute_url "http://localhost"
  /\ is_valid_url "" = false.
Proof.
  split; [vm_compute; reflexivity|]. split; [|split; [|vm_compute; reflexivity]].
  - intros H. apply lang_url_pattern, matches_lang in H. vm_compute in H. discriminate.
  - apply lang_url_pattern, matches_lang. vm_compute. reflexivity.
Qed.

(* ------------------------------------------------------------------ *)
(** ** What statistics and redirects write *)

(** C10. A statistics request leaves the whole store as it is.  A redirect
    request leaves the [urls] table and its counter as they are, every
    entry with its five fields, and the [clicks] table is afterwards the
    same or longer by one row. *)
Theorem stats_and_redirect_keep_urls fuel amb db code req :
  (exists resp, handle fuel amb db (GetStats code) = Some (resp, db))
  /\ (exists resp db',
         handle fuel amb db (GetRedirect code req) = Some (resp, db')
         /\ urls db' = urls db
         /\ urls_seq db' = urls_seq db
         /\ (clicks db' = clicks db
             \/ exists click, clicks db' = (clicks db ++ [click])%list)).
Proof.
  split.
  - destruct (handle fuel amb db (GetStats code)) as [[resp db']|] eqn:H; [|discriminate].
    exists resp. now rewrite (stats_unchanged _ _ _ _ _ _ H).
  - destruct (handle fuel amb db (GetRedirect code req)) as [[resp db']|] eqn:H; [|discriminate].
    exists resp, db'. split; [reflexivity|].
    apply redirect_cases in H as [[-> _] | (e & _ & _ & _ & _ & ->)]; simpl; eauto.
Qed.

End Properties.

(* ================================================================== *)
(** * Further behaviour of the handlers and of the utilities *)
(* ================================================================== *)

Module Behaviour.
Import Text TextFacts Re ReFacts Py Utils Database App AppFacts Spec GrammarFacts.

Local Open Scope Z_scope.

(* ------------------------------------------------------------------ *)
(** ** What [is_valid_url] accepts *)

Lemma lang_within p r s :
  regex_within p r = true -> lang r s -> all_chars p s = true.
Proof.
  intros Hr H. revert Hr.
  induction H as [ | q c Hq | r1 r2 u v _ IH1 _ IH2 | r1 r2 u _ IH | r1 r2 u _ IH
                 | r1 | r1 u v _ IH1 _ IH2 ]; cbn [regex_within]; intros Hr.
  - reflexivity.
  - unfold all_chars; simpl. rewrite forallb_forall in Hr.
    specialize (Hr c (all_ascii_complete c)). rewrite Hq in Hr. simpl in Hr.
    now rewrite Hr.
  - apply andb_true_iff in Hr as [H1 H2]. now rewrite all_chars_app, IH1, IH2.
  - apply andb_true_iff in Hr as [H1 H2]. auto.
  - apply andb_true_iff in Hr as [H1 H2]. auto.
  - reflexivity.
  - rewrite all_chars_app, IH1, IH2 by assumption. reflexivity.
Qed.

Lemma url_pattern_visible :
  regex_within Grammar.visible_char (compile true url_pattern) = true.
Proof. vm_compute. reflexivity. Qed.

(** X1. Every absolute URL of the grammar is accepted: a scheme [http],
    [https], [ftp] or [ftps] in any case, ["://"], a domain of labels and a
    last part, [localhost] or four groups of digits, an optional port and
    an optional path or query without white space.  So is such a URL
    followed by one newline. *)
Theorem grammar_urls_are_accepted s :
  Grammar.absolute_url s ->
  is_valid_url s = true /\ is_valid_url (s ++ String newline "") = true.
Proof.
  intros H. split; apply is_valid_url_iff; [now left|].
  right. exists s. split; [reflexivity | assumption].
Qed.

Lemma grammar_urls_are_accepted_witness :
  is_valid_url "https://example.com/page" = true
  /\ is_valid_url ("https://example.com/page" ++ String newline "") = true.
Proof.
  apply grammar_urls_are_accepted.
  apply lang_url_pattern, matches_lang. vm_compute. reflexivity.
Defined.

(** X2. A string that [is_valid_url] accepts holds no white space, except
    for one newline at its very end. *)
Theorem valid_url_has_no_space s :
  is_valid_url s = true ->
  exists s', (s = s' \/ s = s' ++ String newline "")
             /\ all_chars (fun c => negb (is_space c)) s' = true.
Proof.
  unfold is_valid_url, re_match_anchored. rewrite match_dollar_spec.
  intros [H | (s' & E & H)]; [exists s | exists s'];
    (split; [auto|]); apply (lang_within _ _ _ url_pattern_visible H).
Qed.

Lemma valid_url_has_no_space_witness :
  exists s', (Examples.page = s' \/ Examples.page = s' ++ String newline "")
             /\ all_chars (fun c => negb (is_space c)) s' = true.
Proof.
  apply (valid_url_has_no_space Examples.page). vm_compute. reflexivity.
Defined.

(* ------------------------------------------------------------------ *)
(** ** The answers of the three endpoints *)

Lemma create_errors fuel amb db data resp db' :
  handle fuel amb db (PostShorturls data) = Some (resp, db') ->
  (forall link exp, resp <> Created link exp) ->
  db' = db
  /\ (resp = Error 400 "Invalid or missing URL"
      \/ resp = Error 400 "Invalid custom shortcode format. Must be alphanumeric (4-20 chars) and can include _ or -"
      \/ resp = Error 409 "Custom shortcode already in use. Please choose another or omit to auto-generate."
      \/ resp = internal_error).
Proof.
  intros H Hn. split.
  { apply create_cases in H as [[-> _] | (u & c & e & _ & _ & _ & _ & _ & -> & _)];
      [reflexivity | now destruct (Hn _ _ eq_refl)]. }
  revert H. simpl. unfold create_short_url.
  destruct (truthy (url data)); simpl; [|intros H; injection H as <- _; auto].
  destruct (url data) as [ | b | z | u | t];
    try (simpl; intros H; injection H as <- _; now auto 6).
  destruct (is_valid_url u); simpl; [|intros H; injection H as <- _; auto].
  destruct (calculate_expiry _ _) as [exp|e];
    [|simpl; intros H; injection H as <- _; now auto 6].
  assert (Hst : forall c, option_map dispatch (Some (store_url amb db u c exp))
                          = Some (resp, db') -> resp = internal_error).
  { intros c. rewrite store_url_eq. destruct (insert_url _ _ _ _ _ _); simpl;
      intros H; injection H as <- _; [now destruct (Hn _ _ eq_refl) | reflexivity]. }
  destruct (truthy (shortcode data)).
  - destruct (shortcode data) as [ | b | z | c | t];
      try (simpl; intros H; injection H as <- _; now auto 6).
    destruct (shortcode_format_ok c); simpl; [|intros H; injection H as <- _; auto].
    destruct (select_url db c); simpl; [intros H; injection H as <- _; auto 6|].
    intros H. apply Hst in H. auto 6.
  - destruct (generate_loop fuel amb db 0) as [c|]; simpl; [|discriminate].
    intros H. apply Hst in H. auto 6.
Qed.

Lemma create_answers fuel amb db data resp db' :
  handle fuel amb db (PostShorturls data) = Some (resp, db') ->
  (exists link exp, resp = Created link exp)
  \/ resp = Error 400 "Invalid or missing URL"
  \/ resp = Error 400 "Invalid custom shortcode format. Must be alphanumeric (4-20 chars) and can include _ or -"
  \/ resp = Error 409 "Custom shortcode already in use. Please choose another or omit to auto-generate."
  \/ resp = internal_error.
Proof.
  intros H. destruct resp as [link exp | v | loc | st msg]; [left; eauto | | |];
    right; apply (create_errors _ _ _ _ _ _ H); intros; discriminate.
Qed.

Lemma redirect_answers fuel amb db code req resp db' :
  handle fuel amb db (GetRedirect code req) = Some (resp, db') ->
  (exists e, select_url db code = Some e /\ resp = Redirect (original_url e))
  \/ resp = Error 404 "Short URL not found."
  \/ resp = Error 410 "Short URL has expired."
  \/ resp = internal_error.
Proof.
  destruct (select_url db code) as [e|] eqn:Hs.
  - destruct (Z.lt_ge_cases (expires_at e) (utcnow amb 0)) as [Hlt|Hge].
    + rewrite (redirect_expired _ _ _ _ _ _ Hs Hlt). intros H; injection H as <- _. auto.
    + destruct (storage_fault amb) eqn:Hf.
      * rewrite (redirect_fault _ _ _ _ _ _ Hs Hge Hf). intros H; injection H as <- _. auto.
      * destruct (has_char is_line_break (original_url e)) eqn:Hb.
        -- rewrite (redirect_refused _ _ _ _ _ _ Hs Hge Hf Hb).
           intros H; injection H as <- _. auto.
        -- rewrite (redirect_recorded _ _ _ _ _ _ Hs Hge Hf Hb).
           intros H; injection H as <- _. left. eauto.
  - rewrite (redirect_unknown _ _ _ _ _ Hs). intros H; injection H as <- _. auto.
Qed.

(** X4. What an answer says about the store.  The 200 of the statistics
    and an answer of status 400 to 499 leave the store exactly as it was;
    a 201 has appended one row to [urls], with the next id, and nothing
    else; a 302 has appended one row to [clicks], with the next id, and
    nothing else.  A 500 leaves the store as it was, except the 500 of a
    redirect whose location [redirect()] refuses: the click of that
    redirect has been committed before. *)
Theorem store_effect_by_status fuel amb db rq resp db' :
  handle fuel amb db rq = Some (resp, db') ->
  (status resp = 200%nat \/ (400 <= status resp < 500)%nat -> db' = db)
  /\ (status resp = 201%nat ->
      exists row, db' = with_url db row /\ id row = urls_seq db + 1
                  /\ ~ In (short_code row) (codes db))
  /\ (status resp = 302%nat ->
      exists row e, db' = with_click db row /\ click_id row = clicks_seq db + 1
                    /\ In e (urls db) /\ url_id row = id e)
  /\ (status resp = 500%nat ->
      db' = db
      \/ exists code req row e,
           rq = GetRedirect code req
           /\ db' = with_click db row /\ click_id row = clicks_seq db + 1
           /\ In e (urls db) /\ url_id row = id e
           /\ has_char is_line_break (original_url e) = true).
Proof.
  intros H. destruct rq as [data | code | code req].
  - pose proof H as H'.
    apply create_cases in H' as [[-> (st & msg & ->)] | (u & c & e & _ & _ & _ & _ & Hc & -> & ->)].
    + apply create_answers in H as [(l & e & E) | [E | [E | [E | E]]]];
        try discriminate; injection E as -> ->; simpl;
        repeat split; intros; try discriminate; auto.
    + simpl. split; [intros [Hs | Hs]; [discriminate | lia]|].
      split; [|split; discriminate]. intros _. eexists. repeat split.
      simpl. destruct Hc as [(_ & _ & _ & Hfree) | (_ & Hg)]; [assumption|].
      now apply generate_loop_sound in Hg as (n & _ & _ & Hfree & _).
  - pose proof (stats_unchanged _ _ _ _ _ _ H) as ->. split; [reflexivity|].
    revert H. simpl. unfold get_short_url_stats.
    destruct (select_url db code); intros H; injection H as <-; simpl;
      repeat split; intros; try discriminate; auto.
  - pose proof H as H'.
    apply redirect_cases in H' as [[-> (st & msg & ->)] | (e & Hs & _ & _ & Hr & ->)].
    + apply redirect_answers in H as [(e & _ & E) | [E | [E | E]]];
        try discriminate; injection E as -> ->; simpl;
        repeat split; intros; try discriminate; auto.
    + apply select_url_some in Hs as [Hin _].
      destruct Hr as [[Hb ->] | [Hb ->]]; simpl.
      * split; [intros [Hs' | Hs']; [discriminate | lia]|].
        split; [discriminate|]. split; [|discriminate].
        intros _. exists (click_of amb db req e), e. repeat split; assumption.
      * split; [intros [Hs' | Hs']; [discriminate | lia]|].
        split; [discriminate|]. split; [discriminate|].
        intros _. right. exists code, req, (click_of amb db req e), e.
        repeat split; assumption.
Qed.

Lemma store_effect_by_status_witness :
  (exists row, Examples.db_custom = with_url (init_db None) row /\ id row = 1)
  /\ (Examples.db_newline = Examples.db_newline
      \/ exists code req row e,
           GetRedirect "abcd" Examples.browser = GetRedirect code req
           /\ with_click Examples.db_newline
                         (click_of (Examples.env (Examples.t0 + 60000000) false
                                                 Examples.one_uuid)
                                   Examples.db_newline Examples.browser
                                   Examples.newline_row)
              = with_click Examples.db_newline row
           /\ In e (urls Examples.db_newline)
           /\ has_char is_line_break (original_url e) = true).
Proof.
  split.
  - destruct (proj1 (proj2 (store_effect_by_status _ _ _ _ _ _
                               ExampleFacts.db_custom_created)) eq_refl)
      as (row & H1 & H2 & _).
    exists row. split; [exact H1 | exact H2].
  - right.
    destruct (proj2 (proj2 (proj2 (store_effect_by_status
                0 (Examples.env (Examples.t0 + 60000000) false Examples.one_uuid)
                Examples.db_newline (GetRedirect "abcd" Examples.browser)
                (Error 500 "Internal Server Error")
                (with_click Examples.db_newline
                   (click_of (Examples.env (Examples.t0 + 60000000) false Examples.one_uuid)
                             Examples.db_newline Examples.browser Examples.newline_row))
                eq_refl))) eq_refl)
      as [H | (code & req & row & e & H1 & H2 & _ & H4 & _ & H6)].
    + exfalso. apply (f_equal (fun d => List.length (clicks d))) in H. discriminate.
    + exists code, req, row, e. auto.
Defined.

(** X5. The handlers' own 500 answer is never sent.  With [sqlite3] not
    imported, no request is answered by the body of an [except
    sqlite3.Error] clause: a creation never answers "Internal server error
    occurred while creating short URL", and a redirect answered 302 has
    always recorded its click. *)
Theorem except_clauses_never_run fuel amb db rq resp db' :
  handle fuel amb db rq = Some (resp, db') ->
  resp <> Error 500 "Internal server error occurred while creating short URL"
  /\ (forall loc, resp = Redirect loc ->
      exists row, clicks db' = (clicks db ++ [row])%list).
Proof.
  intros H. split.
  - destruct rq as [data | code | code req].
    + apply create_answers in H as [(l & e & ->) | [-> | [-> | [-> | ->]]]]; discriminate.
    + revert H. simpl. unfold get_short_url_stats.
      destruct (select_url db code); intros H; injection H as <- _; discriminate.
    + apply redirect_answers in H as [(e & _ & ->) | [-> | [-> | ->]]]; discriminate.
  - intros loc ->. destruct rq as [data | code | code req].
    + apply create_answers in H as [(l & e & E) | [E | [E | [E | E]]]]; discriminate.
    + revert H. simpl. unfold get_short_url_stats.
      destruct (select_url db code); intros H; injection H as E _; discriminate.
    + apply redirect_cases in H as [[_ (st & msg & E)] | (e & _ & _ & _ & _ & ->)];
        [discriminate|].
      eexists. reflexivity.
Qed.

Lemma except_clauses_never_run_witness :
  Error 500 "Internal Server Error"
  <> Error 500 "Internal server error occurred while creating short URL".
Proof.
  apply (except_clauses_never_run
           0 (Examples.env (Examples.t0 + 60000000) true Examples.one_uuid)
           Examples.db_custom (GetRedirect "abcd" Examples.browser) _ Examples.db_custom).
  reflexivity.
Defined.

(* ------------------------------------------------------------------ *)
(** ** Refused creations *)

(** X6. The URL is checked first.  A request whose [url] is missing, [null],
    empty, zero, [false], or a string that [is_valid_url] rejects is
    answered 400 "Invalid or missing URL" and stores nothing, whatever its
    [validity] and [shortcode] are, even a custom code that is taken or
    malformed. *)
Theorem invalid_url_is_400 fuel amb db data :
  truthy (url data) = false
  \/ (exists u, url data = VStr u /\ is_valid_url u = false) ->
  handle fuel amb db (PostShorturls data)
  = Some (Error 400 "Invalid or missing URL", db).
Proof.
  intros [H | (u & Hu & Hv)]; simpl; unfold create_short_url.
  - now rewrite H.
  - rewrite Hu. destruct (truthy (VStr u)); simpl; [|reflexivity]. now rewrite Hv.
Qed.

Lemma invalid_url_is_400_witness :
  handle 0 (Examples.env Examples.t0 false Examples.one_uuid) Examples.db_custom
         (PostShorturls {| url := VStr "example.com"; validity := VNone;
                           shortcode := VStr "abcd" |})
  = Some (Error 400 "Invalid or missing URL", Examples.db_custom).
Proof.
  apply invalid_url_is_400. right. exists "example.com". split; reflexivity.
Defined.

(** X7. A [url] or a [shortcode] that is true in a condition without being
    a string (a non-zero number, [true], a non-empty list or object) makes
    [re.match] raise; the request is answered 500 and stores nothing. *)
Theorem non_string_field_is_500 fuel amb db data :
  (truthy (url data) = true /\ forall u, url data <> VStr u)
  \/ (exists u exp, url data = VStr u /\ is_valid_url u = true
                    /\ calculate_expiry (utcnow amb 0) (expiry_minutes (validity data)) = Ok exp
                    /\ truthy (shortcode data) = true
                    /\ forall c, shortcode data <> VStr c) ->
  handle fuel amb db (PostShorturls data) = Some (Error 500 "Internal Server Error", db).
Proof.
  intros [[Ht Hn] | (u & exp & Hu & Hv & He & Ht & Hn)]; simpl; unfold create_short_url.
  - rewrite Ht. simpl. destruct (url data) as [ | b | z | u | t]; try reflexivity.
    now destruct (Hn u).
  - rewrite Hu, Hv, He, Ht. pose proof (is_valid_url_nonempty u Hv) as Hne.
    destruct u as [|a u]; [congruence|]. simpl.
    destruct (shortcode data) as [ | b | z | c | t]; try reflexivity.
    now destruct (Hn c).
Qed.

Lemma non_string_field_is_500_witness :
  handle 0 (Examples.env Examples.t0 false Examples.one_uuid) Examples.db_custom
         (PostShorturls {| url := VInt 5; validity := VNone; shortcode := VNone |})
  = Some (Error 500 "Internal Server Error", Examples.db_custom).
Proof.
  apply non_string_field_is_500. left. split; [reflexivity | discriminate].
Defined.

(** X8. A validity that carries the expiry past 9999-12-31T23:59:59.999999
    makes [calculate_expiry] raise [OverflowError]: the request, its URL
    being valid, is answered 500 and stores nothing. *)
Theorem unrepresentable_expiry_is_500 fuel amb db data u z :
  url data = VStr u -> is_valid_url u = true ->
  validity data = VInt z -> 0 < z ->
  datetime_max < utcnow amb 0 + z * 60000000 ->
  handle fuel amb db (PostShorturls data) = Some (Error 500 "Internal Server Error", db).
Proof.
  intros Hu Hv Hz Hpos Hbig. simpl. unfold create_short_url.
  rewrite Hu, Hv, Hz. pose proof (is_valid_url_nonempty u Hv) as Hne.
  destruct u as [|a u]; [congruence|]. simpl.
  apply Z.ltb_lt in Hpos as Hpos'. rewrite Hpos'.
  unfold calculate_expiry, timedelta_minutes, datetime_add, bind.
  destruct (Z.abs _ <=? _); [|reflexivity].
  destruct (Z.leb_spec (utcnow amb 0 + z * 60000000) datetime_max) as [Hle|Hgt]; [lia|].
  rewrite andb_false_r. reflexivity.
Qed.

Lemma unrepresentable_expiry_is_500_witness :
  handle 0 (Examples.env Examples.t0 false Examples.one_uuid) (init_db None)
         (PostShorturls (Examples.post (VInt 5000000000) VNone))
  = Some (Error 500 "Internal Server Error", init_db None).
Proof.
  apply (unrepresentable_expiry_is_500 _ _ _ _ Examples.page 5000000000);
    [reflexivity | exact ExampleFacts.page_valid | reflexivity | reflexivity
     | vm_compute; reflexivity].
Defined.

(** X9. When the INSERT of a creation raises, the request is answered by
    the generic 500 and nothing is stored. *)
Theorem failing_url_insert_is_500 fuel amb db data u exp code :
  url data = VStr u ->
  is_valid_url u = true ->
  calculate_expiry (utcnow amb 0) (expiry_minutes (validity data)) = Ok exp ->
  chosen_code fuel amb db data code ->
  storage_fault amb = true ->
  handle fuel amb db (PostShorturls data) = Some (Error 500 "Internal Server Error", db).
Proof.
  intros Hu Hv He Hc Hf. simpl. unfold create_short_url.
  rewrite Hu, Hv, He. pose proof (is_valid_url_nonempty u Hv) as Hne.
  destruct u as [|a u]; [congruence|]. simpl.
  assert (Hst : forall c, store_url amb db (String a u) c exp
                          = (Raise (NameError "sqlite3"), db)).
  { intros c. rewrite store_url_eq, Hf. reflexivity. }
  destruct Hc as [(Hs & Hfmt & Hn & Hfree) | (Hs & Hg)].
  - rewrite Hs. destruct code as [|b code]; [congruence|]. simpl.
    rewrite Hfmt. simpl. apply select_url_none in Hfree. rewrite Hfree.
    simpl. now rewrite Hst.
  - rewrite Hs, Hg. simpl. now rewrite Hst.
Qed.

Lemma failing_url_insert_is_500_witness :
  handle 1 (Examples.env Examples.t0 true Examples.one_uuid) (init_db None)
         (PostShorturls (Examples.post VNone VNone))
  = Some (Error 500 "Internal Server Error", init_db None).
Proof.
  apply (failing_url_insert_is_500 _ _ _ _ Examples.page
           (Examples.t0 + 30 * 60000000) "vytxeTZ");
    [reflexivity | exact ExampleFacts.page_valid | reflexivity
     | right; split; reflexivity | reflexivity].
Defined.

(* ------------------------------------------------------------------ *)
(** ** Custom codes at the handler *)

(** X10. The check of a custom code, [re.match] with [^[a-zA-Z0-9_-]{4,20}$],
    accepts exactly the strings of 4 to 20 letters, digits, [_] and [-],
    and those strings followed by one newline. *)
Theorem custom_code_check_accepts code :
  shortcode_format_ok code = true <->
  validateCustomCode code = true
  \/ exists code', code = code' ++ String newline "" /\ validateCustomCode code' = true.
Proof.
  unfold shortcode_format_ok, re_match_anchored. rewrite match_dollar_spec. split.
  - intros [H | (code' & E & H)]; [left | right; exists code'; split; [exact E|]];
      now apply lang_shortcode_pattern.
  - intros [H | (code' & E & H)]; [left | right; exists code'; split; [exact E|]];
      now apply lang_shortcode_pattern.
Qed.

(** X11. A custom code that is neither of the format [[A-Za-z0-9_-]{4,20}]
    nor such a code followed by one newline is answered 400, the URL being
    valid and the expiry representable, and nothing is stored. *)
Theorem malformed_custom_code_is_400 fuel amb db data u exp code :
  url data = VStr u -> is_valid_url u = true ->
  calculate_expiry (utcnow amb 0) (expiry_minutes (validity data)) = Ok exp ->
  shortcode data = VStr code -> code <> "" ->
  validateCustomCode code = false ->
  (forall code', code = code' ++ String newline "" -> validateCustomCode code' = false) ->
  exists msg, handle fuel amb db (PostShorturls data) = Some (Error 400 msg, db).
Proof.
  intros Hu Hv He Hs Hne Hbad Hbad'. simpl. unfold create_short_url.
  rewrite Hu, Hv, He, Hs. pose proof (is_valid_url_nonempty u Hv) as Hn.
  destruct u as [|a u]; [congruence|]. destruct code as [|b code]; [congruence|]. simpl.
  destruct (shortcode_format_ok (String b code)) eqn:Hfmt; simpl; [|eauto].
  apply shortcode_format_ok_iff in Hfmt as [H | (c' & E & H)]; [congruence|].
  rewrite (Hbad' c' E) in H. discriminate.
Qed.

Lemma malformed_custom_code_is_400_witness :
  exists msg,
    handle 0 (Examples.env Examples.t0 false Examples.one_uuid) (init_db None)
           (PostShorturls (Examples.post VNone (VStr "a b")))
    = Some (Error 400 msg, init_db None).
Proof.
  apply (malformed_custom_code_is_400 _ _ _ _ Examples.page
           (Examples.t0 + 30 * 60000000) "a b");
    [reflexivity | exact ExampleFacts.page_valid | reflexivity | reflexivity
     | discriminate | reflexivity |].
  intros code' E. destruct code' as [|c1 [|c2 [|c3 code']]]; try discriminate.
  injection E as _ _ E. destruct code'; discriminate.
Defined.

(** X12. A custom code of the format followed by one newline passes the
    check of the handler: it is stored with its newline, and the code
    without the newline stays free. *)
Theorem custom_code_with_newline_is_stored fuel amb db data u exp code :
  url data = VStr u -> is_valid_url u = true ->
  calculate_expiry (utcnow amb 0) (expiry_minutes (validity data)) = Ok exp ->
  storage_fault amb = false ->
  validateCustomCode code = true ->
  shortcode data = VStr (code ++ String newline "") ->
  ~ In (code ++ String newline "") (codes db) ->
  exists row db',
    handle fuel amb db (PostShorturls data)
    = Some (Created (short_link amb (code ++ String newline "")) exp, db')
    /\ urls db' = (urls db ++ [row])%list
    /\ short_code row = code ++ String newline ""
    /\ (~ In code (codes db) -> select_url db' code = None).
Proof.
  intros Hu Hv He Hf Hc Hs Hfree.
  set (nl := code ++ String newline "") in *.
  set (row := new_url db u nl (utcnow amb 1) exp).
  exists row, (with_url db row). split; [|repeat split].
  - apply create_success; auto. left. repeat split; auto.
    + apply shortcode_format_ok_iff. right. exists code. auto.
    + unfold nl. destruct code; discriminate.
  - intros Hfree'. apply select_url_none. unfold codes, with_url; simpl.
    rewrite map_app, in_app_iff. simpl. intros [H | [H | []]]; [now apply Hfree'|].
    unfold nl in H. apply (f_equal String.length) in H.
    rewrite length_append in H. simpl in H. lia.
Qed.

Lemma custom_code_with_newline_is_stored_witness :
  exists row db',
    handle 0 (Examples.env Examples.t0 false Examples.one_uuid) (init_db None)
           (PostShorturls (Examples.post VNone (VStr ("abcd" ++ String newline ""))))
    = Some (Created (short_link (Examples.env Examples.t0 false Examples.one_uuid)
                                ("abcd" ++ String newline ""))
                    (Examples.t0 + 30 * 60000000), db')
    /\ urls db' = [row]
    /\ short_code row = "abcd" ++ String newline "".
Proof.
  destruct (custom_code_with_newline_is_stored
              0 (Examples.env Examples.t0 false Examples.one_uuid) (init_db None)
              (Examples.post VNone (VStr ("abcd" ++ String newline ""))) Examples.page
              (Examples.t0 + 30 * 60000000) "abcd"
              eq_refl ExampleFacts.page_valid eq_refl eq_refl eq_refl eq_refl
              (fun H : In _ (codes (init_db None)) => H))
    as (row & db' & H1 & H2 & H3 & _).
  exists row, db'. auto.
Defined.

(* ------------------------------------------------------------------ *)
(** ** Invariants of the reachable stores *)

Lemma count_from_1_succ n : count_from_1 (S n) = (count_from_1 n ++ [Z.of_nat n + 1])%list.
Proof.
  unfold count_from_1. rewrite seq_S, map_app. simpl. do 2 f_equal. lia.
Qed.

Lemma dense_step fuel amb db rq resp db' :
  handle fuel amb db rq = Some (resp, db') ->
  map id (urls db) = count_from_1 (List.length (urls db)) ->
  urls_seq db = Z.of_nat (List.length (urls db)) ->
  map click_id (clicks db) = count_from_1 (List.length (clicks db)) ->
  clicks_seq db = Z.of_nat (List.length (clicks db)) ->
  map id (urls db') = count_from_1 (List.length (urls db'))
  /\ urls_seq db' = Z.of_nat (List.length (urls db'))
  /\ map click_id (clicks db') = count_from_1 (List.length (clicks db'))
  /\ clicks_seq db' = Z.of_nat (List.length (clicks db')).
Proof.
  intros H H1 H2 H3 H4. destruct rq as [data | code | code req].
  - apply create_cases in H as [[-> _] | (u & c & e & _ & _ & _ & _ & _ & _ & ->)]; [auto|].
    simpl. rewrite map_app, length_app, H1. simpl.
    rewrite Nat.add_1_r, count_from_1_succ, H2. repeat split; auto; lia.
  - apply stats_unchanged in H as ->. auto.
  - apply redirect_cases in H as [[-> _] | (e & _ & _ & _ & _ & ->)]; [auto|].
    simpl. rewrite map_app, length_app, H3. simpl.
    rewrite Nat.add_1_r, count_from_1_succ, H4. repeat split; auto; lia.
Qed.

(** X13. Ids are dense.  In every reachable store the ids of [urls] are
    1, 2, ..., n in table order, n being the number of entries and the value
    of the AUTOINCREMENT counter, and likewise for [clicks]: no id is
    skipped or used twice, also after refused requests. *)
Theorem ids_count_from_1 db :
  reachable db ->
  map id (urls db) = count_from_1 (List.length (urls db))
  /\ urls_seq db = Z.of_nat (List.length (urls db))
  /\ map click_id (clicks db) = count_from_1 (List.length (clicks db))
  /\ clicks_seq db = Z.of_nat (List.length (clicks db)).
Proof.
  induction 1 as [|fuel amb db rq resp db' _ (H1 & H2 & H3 & H4) H].
  - repeat split.
  - eapply dense_step; eassumption.
Qed.

Lemma ids_count_from_1_witness :
  reachable Examples.db_custom /\ map id (urls Examples.db_custom) = [1].
Proof.
  split; [exact ExampleFacts.db_custom_reachable|].
  exact (proj1 (ids_count_from_1 Examples.db_custom ExampleFacts.db_custom_reachable)).
Defined.

Lemma ids_distinct db : reachable db -> NoDup (map id (urls db)).
Proof.
  induction 1 as [|fuel amb db rq resp db' Hr IH H]; [constructor|].
  pose proof (reachable_well_formed db Hr) as [_ _ Hi _].
  apply handle_extends in H as [-> | [(row & _ & Hid & ->) | (e & row & _ & _ & ->)]];
    simpl; auto.
  rewrite map_app. simpl. apply NoDup_snoc; [assumption|].
  rewrite in_map_iff. intros (r & E & Hin).
  rewrite Forall_forall in Hi. specialize (Hi r Hin). lia.
Qed.

(** X14. Every click belongs to one entry.  In every reachable store each
    row of [clicks] carries in [url_id] the id of an entry of [urls], and
    of that entry only. *)
Theorem click_has_one_entry db c :
  reachable db -> In c (clicks db) ->
  exists e, In e (urls db) /\ id e = url_id c
            /\ forall e', In e' (urls db) -> id e' = url_id c -> e' = e.
Proof.
  intros Hr Hc. pose proof (reachable_well_formed db Hr) as [_ _ _ Hrefs].
  rewrite Forall_forall in Hrefs. destruct (Hrefs c Hc) as (e & He & Hid).
  exists e. repeat split; try assumption.
  intros e' He' Hid'. pose proof (ids_distinct db Hr) as Hnd.
  clear Hrefs. revert Hnd He He'. induction (urls db) as [|r l IH]; simpl; [tauto|].
  intros Hnd [<-|H1] [<-|H2]; inversion Hnd as [|? ? Hnot Hl]; subst.
  - reflexivity.
  - exfalso. apply Hnot. rewrite Hid, <- Hid'. now apply in_map.
  - exfalso. apply Hnot. rewrite Hid', <- Hid. now apply in_map.
  - now apply IH.
Qed.

Lemma click_has_one_entry_witness :
  exists e, In e (urls Examples.db_clicked) /\ id e = url_id Examples.abcd_click.
Proof.
  destruct (click_has_one_entry Examples.db_clicked Examples.abcd_click
              ExampleFacts.db_clicked_reachable (or_introl eq_refl))
    as (e & H1 & H2 & _).
  exists e. auto.
Defined.

(** X15. Only validated URLs are stored and served.  In every reachable
    store the [original_url] of each entry is a string [is_valid_url]
    accepts and its expiry is a representable [datetime]; hence every 302
    of the service points to a URL that passed the validation. *)
Theorem stored_urls_are_valid db :
  reachable db ->
  (forall e, In e (urls db) ->
             is_valid_url (original_url e) = true /\ 0 <= expires_at e <= datetime_max)
  /\ (forall fuel amb code req loc db',
         handle fuel amb db (GetRedirect code req) = Some (Redirect loc, db') ->
         is_valid_url loc = true).
Proof.
  intros Hr.
  assert (Hall : forall e, In e (urls db) ->
            is_valid_url (original_url e) = true /\ 0 <= expires_at e <= datetime_max).
  { induction Hr as [|fuel amb db rq resp db' _ IH H]; intros e; [intros []|].
    destruct rq as [data | code | code req].
    - apply create_cases in H as [[-> _] | (u & k & x & _ & Hv & He & _ & _ & _ & ->)];
        [apply IH|].
      simpl. rewrite in_app_iff. intros [Hin | [<- | []]]; [now apply IH|].
      simpl. split; [assumption|].
      revert He. unfold calculate_expiry, timedelta_minutes, datetime_add, bind.
      destruct (Z.abs _ <=? _); [|discriminate].
      destruct (_ && _) eqn:E; [|discriminate]. intros Hx. injection Hx as <-.
      apply andb_true_iff in E as [E1 E2]. apply Z.leb_le in E1, E2. lia.
    - apply stats_unchanged in H as ->. apply IH.
    - apply redirect_cases in H as [[-> _] | (x & _ & _ & _ & _ & ->)]; apply IH. }
  split; [exact Hall|].
  intros fuel amb code req loc db' H.
  apply redirect_cases in H as [[_ (st & msg & E)] | (e & Hs & _ & _ & [[_ E] | [_ E]] & _)];
    [discriminate | | discriminate].
  injection E as ->. apply select_url_some in Hs as [Hin _]. now apply Hall.
Qed.

Lemma stored_urls_are_valid_witness :
  is_valid_url (original_url Examples.abcd_row) = true.
Proof.
  apply (proj1 (stored_urls_are_valid Examples.db_custom ExampleFacts.db_custom_reachable)
               Examples.abcd_row).
  left. reflexivity.
Defined.

(* ------------------------------------------------------------------ *)
(** ** Stores only grow *)

(** X16. Nothing is ever updated or deleted: after any number of requests
    both tables are the earlier tables followed by new rows. *)
Theorem tables_are_append_only db1 db2 :
  steps db1 db2 ->
  exists new_urls new_clicks,
    urls db2 = (urls db1 ++ new_urls)%list
    /\ clicks db2 = (clicks db1 ++ new_clicks)%list.
Proof.
  induction 1 as [db | fuel amb db1 db2 rq resp db3 _ (us & cs & Hu & Hc) H].
  - exists [], []. now rewrite !app_nil_r.
  - apply handle_extends in H as [-> | [(row & _ & _ & ->) | (e & row & _ & _ & ->)]]; simpl.
    + eauto.
    + exists (us ++ [row])%list, cs. rewrite Hu, Hc, app_assoc. auto.
    + exists us, (cs ++ [row])%list. rewrite Hu, Hc, app_assoc. auto.
Qed.

Lemma tables_are_append_only_witness :
  exists new_urls new_clicks,
    urls Examples.db_custom = (urls (init_db None) ++ new_urls)%list
    /\ clicks Examples.db_custom = (clicks (init_db None) ++ new_clicks)%list.
Proof.
  apply tables_are_append_only.
  eapply steps_next; [apply steps_refl | exact ExampleFacts.db_custom_created].
Defined.

Lemma clicks_only_grow db1 db2 :
  steps db1 db2 -> exists later, clicks db2 = (clicks db1 ++ later)%list.
Proof.
  induction 1 as [db | fuel amb db1 db2 rq resp db3 _ (cs & Hc) H].
  - exists []. now rewrite app_nil_r.
  - apply handle_extends in H as [-> | [(row & _ & _ & ->) | (e & row & _ & _ & ->)]]; simpl;
      [eauto | eauto |].
    exists (cs ++ [row])%list. now rewrite Hc, app_assoc.
Qed.

(** X17. An entry stays what it is, and its count of clicks never goes down:
    when a code has the entry [e], then after any number of further
    requests the same code has the same entry, with every field as it was,
    and the statistics show at least as many clicks as before, the earlier
    details first. *)
Theorem entry_is_stable db1 db2 code e :
  steps db1 db2 ->
  select_url db1 code = Some e ->
  select_url db2 code = Some e
  /\ exists later,
       select_clicks db2 (id e) = (select_clicks db1 (id e) ++ later)%list
       /\ totalClicks (stats_of db2 e)
          = (totalClicks (stats_of db1 e) + List.length later)%nat
       /\ clickDetails (stats_of db2 e)
          = (clickDetails (stats_of db1 e) ++ map click_view later)%list.
Proof.
  intros Hst Hs. split; [eapply select_url_steps; eassumption|].
  destruct (clicks_only_grow db1 db2 Hst) as (cs & Hc).
  exists (filter (fun c => url_id c =? id e) cs).
  unfold stats_of, select_clicks; simpl.
  rewrite Hc, filter_app, length_app, map_app. auto.
Qed.

Lemma entry_is_stable_witness :
  select_url Examples.db_clicked "abcd" = Some Examples.abcd_row
  /\ exists later,
       select_clicks Examples.db_clicked 1 = (select_clicks Examples.db_custom 1 ++ later)%list
       /\ totalClicks (stats_of Examples.db_clicked Examples.abcd_row)
          = (totalClicks (stats_of Examples.db_custom Examples.abcd_row)
             + List.length later)%nat.
Proof.
  destruct (entry_is_stable Examples.db_custom Examples.db_clicked "abcd" Examples.abcd_row)
    as (H1 & later & H2 & H3 & _).
  - eapply steps_next; [apply steps_refl | exact ExampleFacts.db_clicked_recorded].
  - reflexivity.
  - split; [exact H1|]. exists later. split; [exact H2 | exact H3].
Defined.

(* ------------------------------------------------------------------ *)
(** ** Expiry at the redirect *)

(** X18. An expired code stays expired.  Once the expiry of an entry is
    before the clock, every later redirect of its code, in any store
    reached since and at any reading of the clock that is not earlier, is
    answered 410 and records nothing; its statistics are still served. *)
Theorem expired_stays_expired fuel amb db db2 amb2 req code e :
  select_url db code = Some e ->
  expires_at e < utcnow amb 0 ->
  steps db db2 ->
  utcnow amb 0 <= utcnow amb2 0 ->
  handle fuel amb2 db2 (GetRedirect code req)
  = Some (Error 410 "Short URL has expired.", db2)
  /\ handle fuel amb2 db2 (GetStats code) = Some (Stats (stats_of db2 e), db2).
Proof.
  intros Hs Hlt Hst Hle.
  pose proof (select_url_steps _ _ _ _ Hst Hs) as Hs2. split.
  - apply (redirect_expired _ _ _ _ _ e); [assumption | lia].
  - now apply stats_found.
Qed.

Lemma expired_stays_expired_witness :
  handle 0 (Examples.env (Examples.t0 + 400000000) false Examples.one_uuid)
         Examples.db_custom (GetRedirect "abcd" Examples.browser)
  = Some (Error 410 "Short URL has expired.", Examples.db_custom).
Proof.
  destruct (expired_stays_expired
              0 (Examples.env (Examples.t0 + 301000000) false Examples.one_uuid)
              Examples.db_custom Examples.db_custom
              (Examples.env (Examples.t0 + 400000000) false Examples.one_uuid)
              Examples.browser "abcd" Examples.abcd_row
              ExampleFacts.db_custom_lookup) as [H _].
  - vm_compute. reflexivity.
  - apply steps_refl.
  - vm_compute. discriminate.
  - exact H.
Defined.

(** X26. A redirect of a code that has an entry whose URL holds no line
    break.  When the expiry of the entry is before the clock the answer is
    410 and the store is unchanged.  Otherwise, the INSERT into [clicks]
    succeeding, the answer is the redirect to the [original_url] of the
    entry, and the store has exactly one more click: its [url_id] is the id
    of the entry, its timestamp the second reading of the clock, and
    [urls] is as it was. *)
Theorem redirect_without_line_break fuel amb db req code e :
  select_url db code = Some e ->
  has_char is_line_break (original_url e) = false ->
  (expires_at e < utcnow amb 0 ->
   handle fuel amb db (GetRedirect code req)
   = Some (Error 410 "Short URL has expired.", db))
  /\ (utcnow amb 0 <= expires_at e -> storage_fault amb = false ->
      exists click db',
        handle fuel amb db (GetRedirect code req) = Some (Redirect (original_url e), db')
        /\ clicks db' = (clicks db ++ [click])%list
        /\ url_id click = id e
        /\ timestamp click = utcnow amb 1
        /\ urls db' = urls db).
Proof.
  intros Hs Hb. split.
  - intros Hlt. now apply (redirect_expired fuel amb db req code e).
  - intros Hge Hf. exists (click_of amb db req e), (with_click db (click_of amb db req e)).
    split; [now apply redirect_recorded | auto].
Qed.

Lemma redirect_without_line_break_witness :
  handle 0 (Examples.env (Examples.t0 + 301000000) false Examples.one_uuid)
         Examples.db_custom (GetRedirect "abcd" Examples.browser)
  = Some (Error 410 "Short URL has expired.", Examples.db_custom)
  /\ (exists click db',
         handle 0 (Examples.env (Examples.t0 + 60000000) false Examples.one_uuid)
                Examples.db_custom (GetRedirect "abcd" Examples.browser)
         = Some (Redirect Examples.page, db')
         /\ clicks db' = [click] /\ url_id click = 1).
Proof.
  split.
  - apply (proj1 (redirect_without_line_break
                    0 (Examples.env (Examples.t0 + 301000000) false Examples.one_uuid)
                    Examples.db_custom Examples.browser "abcd" Examples.abcd_row
                    ExampleFacts.db_custom_lookup eq_refl)).
    vm_compute. reflexivity.
  - destruct (proj2 (redirect_without_line_break
                       0 (Examples.env (Examples.t0 + 60000000) false Examples.one_uuid)
                       Examples.db_custom Examples.browser "abcd" Examples.abcd_row
                       ExampleFacts.db_custom_lookup eq_refl))
      as (click & db' & H1 & H2 & H3 & _).
    + vm_compute. discriminate.
    + reflexivity.
    + exists click, db'. auto.
Defined.

Lemma short_link_inj amb c1 c2 : short_link amb c1 = short_link amb c2 -> c1 = c2.
Proof.
  unfold short_link. intros H. apply append_inj_l in H. now injection H.
Qed.

(** X19. The [expiry] of the 201 answer is the last instant of the link.
    After a creation answered with the link of [code] and the expiry [exp],
    in the resulting store or any store reached from it, a redirect of
    [code] whose clock reads more than [exp] is answered 410.  One whose
    clock reads [exp] or less, the click being recorded, goes to the
    submitted URL when that URL holds no line break, and is answered 500
    when it holds one (the final newline that [is_valid_url] lets
    through). *)
Theorem link_works_until_expiry fuel amb db data u code exp db1 :
  handle fuel amb db (PostShorturls data) = Some (Created (short_link amb code) exp, db1) ->
  url data = VStr u ->
  forall db2 fuel2 amb2 req,
    steps db1 db2 ->
    (utcnow amb2 0 <= exp -> storage_fault amb2 = false ->
     has_char is_line_break u = false ->
     exists db3, handle fuel2 amb2 db2 (GetRedirect code req) = Some (Redirect u, db3))
    /\ (utcnow amb2 0 <= exp -> storage_fault amb2 = false ->
        has_char is_line_break u = true ->
        exists db3,
          handle fuel2 amb2 db2 (GetRedirect code req)
          = Some (Error 500 "Internal Server Error", db3))
    /\ (exp < utcnow amb2 0 ->
        handle fuel2 amb2 db2 (GetRedirect code req)
        = Some (Error 410 "Short URL has expired.", db2)).
Proof.
  intros H Hu db2 fuel2 amb2 req Hst.
  apply create_cases in H as [[_ (st & msg & E)] | (u' & c & e & Hu' & _ & _ & _ & Hc & E & ->)];
    [discriminate|].
  injection E as E1 <-. apply short_link_inj in E1 as <-.
  assert (u' = u) by congruence. subst u'.
  set (row := new_url db u code (utcnow amb 1) exp).
  assert (Hfree : ~ In (short_code row) (codes db)).
  { simpl. destruct Hc as [(_ & _ & _ & Hf) | (_ & Hg)]; [assumption|].
    now apply generate_loop_sound in Hg as (n & _ & _ & Hf & _). }
  pose proof (select_url_steps _ _ _ _ Hst (Properties.select_url_new db row Hfree)) as Hs.
  split; [|split].
  - intros Hle Hf Hb. eexists.
    apply (redirect_recorded fuel2 amb2 db2 req code row Hs); assumption.
  - intros Hle Hf Hb. eexists.
    apply (redirect_refused fuel2 amb2 db2 req code row Hs); assumption.
  - intros Hlt. now apply (redirect_expired fuel2 amb2 db2 req code row Hs).
Qed.

Lemma link_works_until_expiry_witness :
  (exists db3,
      handle 0 (Examples.env (Examples.t0 + 5 * 60000000) false Examples.one_uuid)
             Examples.db_clicked (GetRedirect "abcd" Examples.browser)
      = Some (Redirect Examples.page, db3))
  /\ (exists db3,
         handle 0 (Examples.env (Examples.t0 + 60000000) false Examples.one_uuid)
                Examples.db_newline (GetRedirect "abcd" Examples.browser)
         = Some (Error 500 "Internal Server Error", db3))
  /\ handle 0 (Examples.env (Examples.t0 + 5 * 60000000 + 1) false Examples.one_uuid)
            Examples.db_custom (GetRedirect "abcd" Examples.browser)
     = Some (Error 410 "Short URL has expired.", Examples.db_custom).
Proof.
  split; [|split].
  - apply (proj1 (link_works_until_expiry _ _ _ _ Examples.page "abcd" _ _
                    ExampleFacts.db_custom_created eq_refl Examples.db_clicked 0%nat
                    (Examples.env (Examples.t0 + 5 * 60000000) false Examples.one_uuid)
                    Examples.browser
                    (steps_next _ _ _ _ _ _ _ (steps_refl _)
                                ExampleFacts.db_clicked_recorded))).
    + vm_compute. discriminate.
    + reflexivity.
    + reflexivity.
  - apply (proj1 (proj2 (link_works_until_expiry _ _ _ _ Examples.localhost_nl "abcd" _ _
                    ExampleFacts.db_newline_created eq_refl Examples.db_newline 0%nat
                    (Examples.env (Examples.t0 + 60000000) false Examples.one_uuid)
                    Examples.browser (steps_refl _)))).
    + vm_compute. discriminate.
    + reflexivity.
    + reflexivity.
  - apply (proj2 (proj2 (link_works_until_expiry _ _ _ _ Examples.page "abcd" _ _
                    ExampleFacts.db_custom_created eq_refl Examples.db_custom 0%nat
                    (Examples.env (Examples.t0 + 5 * 60000000 + 1) false Examples.one_uuid)
                    Examples.browser (steps_refl _)))).
    vm_compute. reflexivity.
Defined.

Lemma expiry_minutes_positive v : 1 <= expiry_minutes v.
Proof.
  destruct v as [ | [] | z | s | t]; simpl; try lia.
  destruct (Z.ltb_spec 0 z); lia.
Qed.

(** X20. Every link lives at least a minute.  The expiry a creation answers
    and stores is at least 60 seconds after the reading of the clock it is
    computed from, whatever [validity] is, and is a representable
    [datetime]. *)
Theorem expiry_is_at_least_a_minute fuel amb db data link exp db' :
  handle fuel amb db (PostShorturls data) = Some (Created link exp, db') ->
  utcnow amb 0 + 60000000 <= exp <= datetime_max
  /\ exists row, urls db' = (urls db ++ [row])%list /\ expires_at row = exp.
Proof.
  intros H.
  apply create_cases in H as [[_ (st & msg & E)] | (u & c & e & _ & _ & He & _ & _ & E & ->)];
    [discriminate|].
  injection E as -> <-. split.
  - pose proof (expiry_minutes_positive (validity data)) as Hm.
    pose proof (Properties.calculate_expiry_ok _ _ _ He) as Hexp.
    revert He. unfold calculate_expiry, timedelta_minutes, datetime_add, bind.
    destruct (Z.abs _ <=? _); [|discriminate].
    destruct (Z.leb_spec (utcnow amb 0 + expiry_minutes (validity data) * 60000000)
                         datetime_max) as [Hle|Hgt];
      [|rewrite andb_false_r; discriminate].
    intros _. lia.
  - eexists. split; reflexivity.
Qed.

Lemma expiry_is_at_least_a_minute_witness :
  Examples.t0 + 60000000 <= Examples.t0 + 5 * 60000000 <= datetime_max.
Proof.
  exact (proj1 (expiry_is_at_least_a_minute _ _ _ _ _ _ _ ExampleFacts.db_custom_created)).
Defined.

(* ------------------------------------------------------------------ *)
(** ** Generated codes *)

Lemma substring_take n : forall s, substring 0 n s = take n s.
Proof.
  induction n as [|n IH]; intros [|c s]; simpl; try reflexivity. now rewrite IH.
Qed.

Lemma length_take_min n : forall s,
  String.length (take n s) = Nat.min n (String.length s).
Proof.
  induction n as [|n IH]; intros [|c s]; simpl; try reflexivity. now rewrite IH.
Qed.

(** X21. [generate_short_code] returns the first 7 characters of the uuid,
    and the whole of a uuid shorter than that: never more than 7
    characters, exactly 7 when the uuid has at least 7. *)
Theorem generated_code_is_a_prefix uuid :
  String.length (generate_short_code uuid) = Nat.min 7 (String.length uuid)
  /\ exists rest, uuid = generate_short_code uuid ++ rest.
Proof.
  unfold generate_short_code. rewrite substring_take. split.
  - apply length_take_min.
  - exists (drop 7 uuid). now rewrite take_drop.
Qed.

(** X22. The code of a creation without custom code.  When the [shortcode]
    of the request is absent or false in a condition (empty, [null], zero),
    a creation answered 201 has stored, and put in the link, the first 7
    characters of one of the uuids drawn during the request. *)
Theorem auto_code_comes_from_generator fuel amb db data link exp db' :
  handle fuel amb db (PostShorturls data) = Some (Created link exp, db') ->
  truthy (shortcode data) = false ->
  exists k row,
    (k < fuel)%nat
    /\ urls db' = (urls db ++ [row])%list
    /\ short_code row = generate_short_code (uuid amb k)
    /\ link = short_link amb (short_code row)
    /\ (String.length (short_code row) <= 7)%nat.
Proof.
  intros H Hs.
  apply create_cases in H as [[_ (st & msg & E)] | (u & c & e & _ & _ & _ & _ & Hc & E & ->)];
    [discriminate|].
  injection E as -> <-.
  destruct Hc as [(Hs' & _ & Hne & _) | (_ & Hg)].
  - rewrite Hs' in Hs. simpl in Hs. destruct c; [congruence | discriminate].
  - apply generate_loop_sound in Hg as (n & Hn & -> & _ & _).
    exists n, (new_url db u (candidate amb (0 + n)) (utcnow amb 1) exp).
    simpl. repeat split; [assumption|].
    unfold candidate, generate_short_code. rewrite substring_take, length_take_min. lia.
Qed.

Lemma auto_code_comes_from_generator_witness :
  exists k row,
    (k < 1)%nat
    /\ urls Examples.db_auto = (urls (init_db None) ++ [row])%list
    /\ short_code row = generate_short_code (Examples.one_uuid k).
Proof.
  destruct (auto_code_comes_from_generator _ _ _ _ _ _ _ ExampleFacts.db_auto_created eq_refl)
    as (k & row & H1 & H2 & H3 & _).
  exists k, row. auto.
Defined.

(* ------------------------------------------------------------------ *)
(** ** The client address *)

Lemma before_comma_no_comma s : has_char is_comma (before_comma s) = false.
Proof.
  unfold has_char. induction s as [|c s IH]; simpl; [reflexivity|].
  destruct (Ascii.eqb_spec c ","); simpl; [reflexivity|].
  rewrite IH. unfold is_comma. destruct (Ascii.eqb_spec c ","); [contradiction | reflexivity].
Qed.

Lemma before_comma_app a rest :
  has_char is_comma a = false ->
  before_comma a = a /\ before_comma (a ++ String "," rest) = a.
Proof.
  unfold has_char. induction a as [|c a IH]; simpl; [auto|].
  unfold is_comma at 1. destruct (Ascii.eqb_spec c ","); simpl; [discriminate|].
  intros H. destruct (IH H) as [H1 H2]. now rewrite H1, H2.
Qed.

Lemma lstrip_no_comma s : has_char is_comma s = false -> has_char is_comma (lstrip s) = false.
Proof.
  unfold has_char. induction s as [|c s IH]; simpl; [reflexivity|].
  intros H. destruct (is_space c); [|exact H].
  apply orb_false_iff in H as [_ H]. auto.
Qed.

Lemma rstrip_no_comma s : has_char is_comma s = false -> has_char is_comma (rstrip s) = false.
Proof.
  unfold has_char. induction s as [|c s IH]; simpl; [reflexivity|].
  intros H. apply orb_false_iff in H as [Hc H]. specialize (IH H).
  destruct (rstrip s) as [|d t].
  - destruct (is_space c); simpl; [reflexivity | now rewrite Hc].
  - simpl in *. now rewrite Hc.
Qed.

Lemma lstrip_spaces pad s : all_chars is_space pad = true -> lstrip (pad ++ s) = lstrip s.
Proof.
  unfold all_chars. induction pad as [|c pad IH]; simpl; [reflexivity|].
  intros H. apply andb_true_iff in H as [Hc H]. rewrite Hc. auto.
Qed.

Lemma rstrip_spaces pad : all_chars is_space pad = true -> rstrip pad = "".
Proof.
  unfold all_chars. induction pad as [|c pad IH]; simpl; [reflexivity|].
  intros H. apply andb_true_iff in H as [Hc H]. now rewrite (IH H), Hc.
Qed.

Lemma rstrip_visible_app a pad :
  all_chars (fun c => negb (is_space c)) a = true ->
  all_chars is_space pad = true ->
  rstrip (a ++ pad) = a.
Proof.
  unfold all_chars. intros Ha Hp. induction a as [|c a IH]; simpl.
  - now apply rstrip_spaces.
  - simpl in Ha. apply andb_true_iff in Ha as [Hc Ha]. rewrite (IH Ha).
    destruct a; [|reflexivity]. apply negb_true_iff in Hc. now rewrite Hc.
Qed.

Lemma lstrip_visible a s :
  a <> "" -> all_chars (fun c => negb (is_space c)) a = true -> lstrip (a ++ s) = a ++ s.
Proof.
  destruct a as [|c a]; [congruence|]. unfold all_chars; simpl. intros _ H.
  apply andb_true_iff in H as [Hc _]. apply negb_true_iff in Hc. now rewrite Hc.
Qed.

Lemma strip_padded pad1 a pad2 :
  all_chars is_space pad1 = true -> all_chars is_space pad2 = true ->
  all_chars (fun c => negb (is_space c)) a = true ->
  strip (pad1 ++ a ++ pad2) = a.
Proof.
  intros H1 H2 Ha. unfold strip. rewrite lstrip_spaces by assumption.
  destruct a as [|c a].
  - simpl. assert (Hl : all_chars is_space (lstrip pad2) = true).
    { clear H1. unfold all_chars in *. induction pad2 as [|d p IH]; simpl; [reflexivity|].
      simpl in H2. apply andb_true_iff in H2 as [Hd H2]. rewrite Hd. auto. }
    now apply rstrip_spaces.
  - rewrite lstrip_visible by (assumption || discriminate).
    now apply rstrip_visible_app.
Qed.

Lemma spaces_no_comma pad : all_chars is_space pad = true -> has_char is_comma pad = false.
Proof.
  unfold all_chars, has_char. induction pad as [|c pad IH]; simpl; [reflexivity|].
  intros H. apply andb_true_iff in H as [Hc H]. rewrite (IH H), orb_false_r.
  unfold is_comma. destruct (Ascii.eqb_spec c ","); [subst; discriminate | reflexivity].
Qed.

Lemma has_char_app p s t : has_char p (s ++ t) = has_char p s || has_char p t.
Proof.
  unfold has_char. induction s as [|c s IH]; simpl; [reflexivity|].
  now rewrite IH, orb_assoc.
Qed.

(** X23. The client address is the first entry of [X-Forwarded-For].  When
    the header is present it wins over the address of the connection, and
    the result is what stands before the first comma without the white
    space around it: for an address [a] without comma or white space,
    padded or not, followed or not by a comma and more entries, the result
    is [a]. Without the header the result is the address of the
    connection. *)
Theorem client_ip_is_first_forwarded_entry request pad1 a pad2 :
  all_chars is_space pad1 = true ->
  all_chars is_space pad2 = true ->
  all_chars (fun c => negb (is_space c)) a = true ->
  has_char is_comma a = false ->
  (x_forwarded_for request = Some (pad1 ++ a ++ pad2)
   \/ exists rest, x_forwarded_for request = Some (pad1 ++ a ++ pad2 ++ String "," rest)) ->
  get_client_ip request = Some a.
Proof.
  intros H1 H2 Ha Hc Hx. unfold get_client_ip.
  assert (Hn : has_char is_comma (pad1 ++ a ++ pad2) = false).
  { now rewrite !has_char_app, Hc, !spaces_no_comma. }
  destruct Hx as [-> | (rest & ->)].
  - rewrite (proj1 (before_comma_app _ "" Hn)). now rewrite strip_padded.
  - replace (pad1 ++ a ++ pad2 ++ String "," rest)
      with ((pad1 ++ a ++ pad2) ++ String "," rest) by now rewrite !append_assoc.
    rewrite (proj2 (before_comma_app _ rest Hn)). now rewrite strip_padded.
Qed.

Lemma client_ip_is_first_forwarded_entry_witness :
  get_client_ip {| x_forwarded_for := Some " 203.0.113.7 , 10.0.0.1";
                   remote_addr := Some "10.0.0.2"; http_referrer := None |}
  = Some "203.0.113.7".
Proof.
  apply (client_ip_is_first_forwarded_entry _ " " "203.0.113.7" " ");
    [reflexivity | reflexivity | reflexivity | reflexivity |].
  right. exists " 10.0.0.1". reflexivity.
Defined.

(** X24. Whatever the header holds, the address taken from it has no comma
    and neither starts nor ends with white space; stripping it again
    changes nothing. *)
Theorem forwarded_ip_is_clean request h :
  x_forwarded_for request = Some h ->
  exists ip, get_client_ip request = Some ip
             /\ has_char is_comma ip = false
             /\ lstrip ip = ip /\ rstrip ip = ip.
Proof.
  intros Hx. unfold get_client_ip. rewrite Hx. eexists. split; [reflexivity|].
  unfold strip. split; [apply rstrip_no_comma, lstrip_no_comma, before_comma_no_comma|].
  generalize (before_comma h). intros s. split.
  - assert (Hl : forall t, lstrip t = "" \/ exists c r, lstrip t = String c r /\ is_space c = false).
    { induction t as [|c t IH]; simpl; [auto|].
      destruct (is_space c) eqn:E; [assumption | right; eauto]. }
    assert (Hr : forall t c r, t = String c r -> is_space c = false ->
                 exists r', rstrip t = String c r').
    { intros t c r -> E. simpl. destruct (rstrip r); [rewrite E|]; eauto. }
    destruct (Hl s) as [-> | (c & r & E & Hc)]; [reflexivity|].
    destruct (Hr _ c r E Hc) as (r' & ->). simpl. now rewrite Hc.
  - generalize (lstrip s). clear s. intros s.
    induction s as [|c s IH]; simpl; [reflexivity|].
    destruct (rstrip s) as [|d t] eqn:E.
    + destruct (is_space c) eqn:Ec; simpl; [reflexivity | now rewrite Ec].
    + simpl in *. now rewrite IH.
Qed.

Lemma forwarded_ip_is_clean_witness :
  exists ip, get_client_ip {| x_forwarded_for := Some " , 10.0.0.1";
                              remote_addr := Some "10.0.0.2"; http_referrer := None |}
             = Some ip
             /\ has_char is_comma ip = false.
Proof.
  destruct (forwarded_ip_is_clean
              {| x_forwarded_for := Some " , 10.0.0.1";
                 remote_addr := Some "10.0.0.2"; http_referrer := None |}
              " , 10.0.0.1" eq_refl) as (ip & H1 & H2 & _).
  exists ip. auto.
Defined.

(* ------------------------------------------------------------------ *)
(** ** The rows of [clicks] *)

Lemma click_of_fields amb db req e :
  referrer (click_of amb db req e) <> "" /\ located (click_of amb db req e).
Proof.
  unfold click_of, new_click, located; simpl. split.
  - destruct (http_referrer req) as [[|c r]|]; discriminate.
  - destruct (get_client_ip req) as [[|c ip]|]; simpl; auto.
    right. split; [|auto]. eexists. split; [reflexivity | discriminate].
Qed.

(** X25. What every recorded click holds.  In every reachable store each row
    of [clicks] has a referrer that is not empty (["Direct"] stands for a
    missing one), and a location that is "Unknown" three times when the
    address is missing or empty, and India, Andhra Pradesh, Kadapa when
    there is an address. *)
Theorem recorded_clicks_are_filled db c :
  reachable db -> In c (clicks db) ->
  referrer c <> "" /\ located c.
Proof.
  intros Hr. revert c. induction Hr as [|fuel amb db rq resp db' _ IH H]; intros c.
  - intros [].
  - destruct rq as [data | code | code req].
    + apply create_cases in H as [[-> _] | (u & k & e & _ & _ & _ & _ & _ & _ & ->)];
        [apply IH | simpl; apply IH].
    + apply stats_unchanged in H as ->. apply IH.
    + apply redirect_cases in H as [[-> _] | (e & _ & _ & _ & _ & ->)]; [apply IH|].
      simpl. rewrite in_app_iff. intros [Hin | [<- | []]]; [now apply IH|].
      apply click_of_fields.
Qed.

Lemma recorded_clicks_are_filled_witness :
  referrer Examples.abcd_click <> "" /\ located Examples.abcd_click.
Proof.
  exact (recorded_clicks_are_filled Examples.db_clicked Examples.abcd_click
           ExampleFacts.db_clicked_reachable (or_introl eq_refl)).
Defined.

End Behaviour.
